(** * LAN video streaming servers: a shallow embedding

    The repository holds two variants of one Node.js server and a browser
    client:
    - [Hls]    : [src/server.js], RTMP ingest re-encoded to HLS by an
                 [ffmpeg] child process;
    - [Flv]    : the server script in [src/logger.js], RTMP ingest served as
                 HTTP-FLV by the media server itself, with winston logging;
    - [Client] : [src/unnamed/part_000], the mediasoup viewer page.

    Every event handler of the scripts is a function
    [State -> State * list Effect]: the module-level variables of the script
    are the fields of [State], and the calls into the runtime (console,
    socket.io, child_process, express, process) are the [Effect]s, in program
    order. *)

From Stdlib Require Import List Arith Lia Bool ZArith Floats.
From stdpp Require Import base gmap sets strings list pretty.

Set Warnings "-register-all,-clear-no-such-hyp".

(** ** Runtime vocabulary shared by the two server scripts *)

(** Identity of a socket.io socket object, and of a child process. *)
Definition Socket := nat.
Definition Pid := nat.

(** JSON values as the handlers build them. Set sizes are naturals; the
    process uptime is a binary64 number. *)
Inductive JVal :=
| JStr (s : string)
| JNum (n : nat)
| JFloat (x : float)
| JBool (b : bool)
| JObj (fields : list (string * JVal)).

(** Own keys of an object literal, in insertion order. *)
Definition keys (v : JVal) : list string :=
  match v with
  | JObj fields => map fst fields
  | _ => []
  end.

(** [obj[k]]: the first field named [k]. *)
Fixpoint lookup_field (k : string) (fields : list (string * JVal)) : option JVal :=
  match fields with
  | [] => None
  | (k', v) :: rest => if String.eqb k k' then Some v else lookup_field k rest
  end.

Definition field (k : string) (v : JVal) : option JVal :=
  match v with
  | JObj fields => lookup_field k fields
  | _ => None
  end.

(** [console.log] of [server.js], and the seven channels of the [log] object
    of [logger.js]. *)
Inductive LogLevel :=
| Console | Info | Success | Warn | Error | Stream | Client | ServerLog.

(** Calls into the runtime. [Kill] is [child.kill()]: neither script ever
    issues it; it is part of the vocabulary so that its absence is a
    statement about the handlers. [ProcessExit] is [process.exit(code)],
    and [DefaultSignalExit] what the runtime does on a signal for which no
    handler is registered: it ends the process without running any code of
    the program. [NmsRun] and [NmsStop] are [nms.run()] and [nms.stop()]. *)
Inductive Effect :=
| Log (lvl : LogLevel) (msg : string)
| StdoutWrite (s : string)
| IoEmit (event : string) (payload : JVal)
| SocketEmit (to : Socket) (event : string) (payload : JVal)
| Spawn (cmd : string) (args : list string) (pid : Pid)
| Kill (pid : Pid)
| ResJson (body : JVal)
| ResSendFile (file : string)
| HttpServerClose
| NmsStop
| ProcessExit (code : nat)
| DefaultSignalExit (sig : string)
| NmsRun
| HttpServerListen (port host : string).

(** The two signals that ask a process to shut down. *)
Inductive Signal := TERM | INT.

Definition signal_name (sig : Signal) : string :=
  match sig with TERM => "SIGTERM" | INT => "SIGINT" end.

(** Who receives an emission: [io.emit] reaches every connected socket,
    [socket.emit] reaches that socket. [connected] is the set of sockets
    currently connected, which both scripts mirror in [clients]. *)
Definition recipients (connected : gset Socket) (e : Effect) : gset Socket :=
  match e with
  | IoEmit _ _ => connected
  | SocketEmit to _ _ => {[ to ]}
  | _ => ∅
  end.

Definition is_spawn (e : Effect) : bool :=
  match e with Spawn _ _ _ => true | _ => false end.

Definition is_kill (e : Effect) : bool :=
  match e with Kill _ => true | _ => false end.

(** The [viewerCount] payloads of an effect trace, oldest first. *)
Definition viewer_count_of (e : Effect) : option nat :=
  match e with
  | IoEmit event (JNum n) => if decide (event = "viewerCount") then Some n else None
  | _ => None
  end.

Definition viewer_counts (effs : list Effect) : list nat := omap viewer_count_of effs.

(** [process.env.X || d]: an unset or empty variable yields the default. *)
Definition env_or (v : option string) (d : string) : string :=
  match v with
  | Some s => if decide (s = "") then d else s
  | None => d
  end.

(** [path.join] is taken from the platform: each configuration carries it
    as a function of the list of its arguments, and nothing is assumed
    about it. This is the function of a POSIX platform on the arguments the
    scripts give it (a normalised absolute directory, then relative paths
    without [.] or [..]); the example configurations use it. *)
Definition posix_join (paths : list string) : string :=
  match paths with
  | [] => "."
  | dir :: names =>
      foldl (λ joined name, if decide (joined = "/") then "/" +:+ name
                            else joined +:+ "/" +:+ name) dir names
  end.

(** One entry of [os.networkInterfaces()]. *)
Record NetIf := { family : string; internal : bool; address : string }.

(** The order of [Object.keys]: the properties whose name is an array
    index (the canonical decimal numeral of an integer below 2^32 - 1)
    come first, in ascending numeric order, and the others follow in the
    order they were added to the object. An object is given as the list of
    its properties in the order they were added. *)
Definition digit (a : Ascii.ascii) : option N :=
  let n := Ascii.N_of_ascii a in
  if ((48 <=? n) && (n <=? 57))%N then Some (n - 48)%N else None.

Fixpoint numeral (s : string) (acc : N) : option N :=
  match s with
  | EmptyString => Some acc
  | String a rest =>
      match digit a with
      | Some d => numeral rest (10 * acc + d)%N
      | None => None
      end
  end.

Definition array_index (name : string) : option N :=
  match name with
  | EmptyString => None
  | String a rest =>
      if (Ascii.N_of_ascii a =? 48)%N && negb (String.eqb rest "") then None
      else match numeral name 0 with
           | Some n => if (n <? 4294967295)%N then Some n else None
           | None => None
           end
  end.

Fixpoint insert_index {A} (n : N) (x : A) (l : list (N * A)) : list (N * A) :=
  match l with
  | [] => [ (n, x) ]
  | (m, y) :: rest =>
      if (n <? m)%N then (n, x) :: (m, y) :: rest else (m, y) :: insert_index n x rest
  end.

Fixpoint indexed {A} (properties : list (string * A)) : list (N * (string * A)) :=
  match properties with
  | [] => []
  | (name, v) :: rest =>
      match array_index name with
      | Some n => insert_index n (name, v) (indexed rest)
      | None => indexed rest
      end
  end.

Definition named {A} (property : string * A) : bool :=
  match array_index property.1 with Some _ => false | None => true end.

Definition object_entries {A} (properties : list (string * A)) : list (string * A) :=
  map snd (indexed properties) ++ List.filter named properties.

Fixpoint first_external (nis : list NetIf) : option string :=
  match nis with
  | [] => None
  | ni :: rest =>
      if bool_decide (family ni = "IPv4") && negb (internal ni)
      then Some (address ni)
      else first_external rest
  end.

(** The two nested loops of [getLocalIP], over the interfaces as
    enumerated. *)
Fixpoint first_address (entries : list (string * list NetIf)) : option string :=
  match entries with
  | [] => None
  | (_, nis) :: rest =>
      match first_external nis with
      | Some a => Some a
      | None => first_address rest
      end
  end.

(** [getLocalIP()] of [server.js], on the object that
    [os.networkInterfaces()] returned. *)
Definition getLocalIP (nets : list (string * list NetIf)) : string :=
  default "127.0.0.1" (first_address (object_entries nets)).

(** [s.includes(needle)]. *)
Fixpoint includes (needle s : string) : bool :=
  String.prefix needle s ||
  match s with
  | EmptyString => false
  | String _ rest => includes needle rest
  end.

(** Running a handler over a sequence of events: the event loop processes
    them one at a time, in order; the effects accumulate in program order. *)
Section EventLoop.
Context {St Ev : Type}.
Variable handle : St -> Ev -> St * list Effect.

Fixpoint run (s : St) (evs : list Ev) : St * list Effect :=
  match evs with
  | [] => (s, [])
  | e :: rest =>
      let '(s1, effs1) := handle s e in
      let '(s2, effs2) := run s1 rest in
      (s2, effs1 ++ effs2)
  end.
End EventLoop.

(** ** [src/server.js]: the HLS variant *)

Module Hls.

(** What the script finds around it: two environment variables, its
    directory, the platform's [path.join], the network interfaces, and the
    operating system's answer to each launch: [spawn_pid n] is the process
    id given to the child of the [n]-th [spawn], and [None] when that
    launch fails (no such program, no permission); [spawn] returns a child
    process object in both cases, with [pid] undefined in the second. *)
Record Config := {
  env_WEB_PORT : option string;
  env_RTMP_PORT : option string;
  dirname : string;
  path_join : list string → string;
  nets : list (string * list NetIf);
  spawn_pid : Pid → option nat
}.

Definition HTTP_PORT (cfg : Config) : string := env_or (env_WEB_PORT cfg) "3000".
Definition RTMP_PORT (cfg : Config) : string := env_or (env_RTMP_PORT cfg) "1935".
Definition INPUT_APP : string := "input".
Definition OUTPUT_APP : string := "live".
Definition STREAM_KEY : string := "stream".
Definition HLS_DIR (cfg : Config) : string := path_join cfg [ dirname cfg; "hls" ].
Definition SERVER_IP (cfg : Config) : string := getLocalIP (nets cfg).

(** The module-level variables [clients] and [ffmpegProc], the latter
    holding the identity of a child process object: the [n]-th object
    [spawn] returned is [n]. [next_pid] is the identity of the object the
    next [spawn] returns, and [children] are the children that were started
    and have not exited yet. *)
Record State := {
  clients : gset Socket;
  ffmpegProc : option Pid;
  children : gset Pid;
  next_pid : Pid
}.

Definition init : State :=
  {| clients := ∅; ffmpegProc := None; children := ∅; next_pid := 1 |}.

Inductive Event :=
| Connection (socket : Socket)
| Disconnect (socket : Socket)
| PrePublish (id streamPath : string)
| DonePublish (id streamPath : string)
| FfmpegStderr (pid : Pid) (data : string)
| FfmpegExit (pid : Pid) (code : option Z) (signal : option string)
| GetRoot
| GetApiInfo
| ProcessSignal (sig : Signal).

Definition ffmpeg_args (cfg : Config) : list string :=
  let input :=
    "rtmp://127.0.0.1:" +:+ RTMP_PORT cfg +:+ "/" +:+ INPUT_APP +:+ "/" +:+ STREAM_KEY in
  let output := path_join cfg [ HLS_DIR cfg; "stream.m3u8" ] in
  [ "-fflags"; "+genpts+discardcorrupt";
    "-flags"; "low_delay";
    "-rtbufsize"; "100M";
    "-i"; input;
    "-c:v"; "libx264";
    "-preset"; "ultrafast";
    "-tune"; "zerolatency";
    "-x264-params"; "keyint=30:min-keyint=30:scenecut=0";
    "-g"; "30";
    "-c:a"; "aac";
    "-ar"; "44100";
    "-b:a"; "128k";
    "-f"; "hls";
    "-hls_time"; "1";
    "-hls_list_size"; "5";
    "-hls_flags"; "delete_segments+append_list+omit_endlist+program_date_time";
    "-hls_segment_type"; "mpegts";
    "-hls_delete_threshold"; "1";
    "-hls_allow_cache"; "0";
    "-hls_segment_filename"; path_join cfg [ HLS_DIR cfg; "seg_%03d.ts" ];
    output ].

(** [ffmpegProc.pid] inside a template literal. *)
Definition pid_text (pid : option nat) : string :=
  match pid with Some n => pretty n | None => "undefined" end.

(** [startFFmpeg()]: returns at once while [ffmpegProc] is set. Otherwise
    [ffmpegProc] becomes the object [spawn] returns, whether or not the
    operating system started the process; the script has no listener for
    the child's [error] event. *)
Definition startFFmpeg (cfg : Config) (s : State) : State * list Effect :=
  match ffmpegProc s with
  | Some _ => (s, [])
  | None =>
      let pid := next_pid s in
      ({| clients := clients s;
          ffmpegProc := Some pid;
          children := match spawn_pid cfg pid with
                      | Some _ => {[ pid ]} ∪ children s
                      | None => children s
                      end;
          next_pid := S pid |},
       [ Spawn "ffmpeg" (ffmpeg_args cfg) pid;
         Log Console ("[FFmpeg] Started (PID: " +:+ pid_text (spawn_pid cfg pid) +:+ ")") ])
  end.

(** [code || signal] inside a template literal. *)
Definition code_or_signal (code : option Z) (signal : option string) : string :=
  match code with
  | Some c => if decide (c = 0%Z) then default "null" signal else pretty c
  | None => default "null" signal
  end.

(** [GET /api/info]. *)
Definition api_info (cfg : Config) : JVal :=
  JObj [ ("ip", JStr (SERVER_IP cfg));
         ("rtmpIngest", JStr ("rtmp://" +:+ SERVER_IP cfg +:+ ":" +:+ RTMP_PORT cfg
                              +:+ "/" +:+ INPUT_APP +:+ "/" +:+ STREAM_KEY));
         ("hls", JStr ("http://" +:+ SERVER_IP cfg +:+ ":" +:+ HTTP_PORT cfg
                       +:+ "/live/stream.m3u8")) ].

(** The handlers registered by the script. It registers none for process
    signals. The media server does, in [nms.run()], for SIGINT alone: that
    handler calls [process.exit()]. On SIGTERM no handler exists and the
    runtime ends the process. *)
Definition handle (cfg : Config) (s : State) (e : Event) : State * list Effect :=
  match e with
  | Connection socket =>
      let s' := {| clients := {[ socket ]} ∪ clients s;
                   ffmpegProc := ffmpegProc s;
                   children := children s;
                   next_pid := next_pid s |} in
      (s', [ IoEmit "viewerCount" (JNum (size (clients s'))) ])
  | Disconnect socket =>
      let s' := {| clients := clients s ∖ {[ socket ]};
                   ffmpegProc := ffmpegProc s;
                   children := children s;
                   next_pid := next_pid s |} in
      (s', [ IoEmit "viewerCount" (JNum (size (clients s'))) ])
  | PrePublish id streamPath =>
      let logged := Log Console ("[NMS prePublish] " +:+ streamPath) in
      if decide (streamPath = "/" +:+ INPUT_APP +:+ "/" +:+ STREAM_KEY)
      then let '(s', effs) := startFFmpeg cfg s in (s', logged :: effs)
      else (s, [ logged ])
  | DonePublish id streamPath =>
      (s, [ Log Console ("[NMS donePublish] " +:+ streamPath) ])
  | FfmpegStderr pid data =>
      (s, if includes "frame=" data then [ StdoutWrite "." ] else [])
  | FfmpegExit pid code signal =>
      ({| clients := clients s;
          ffmpegProc := None;
          children := children s ∖ {[ pid ]};
          next_pid := next_pid s |},
       [ Log Console (String (Ascii.ascii_of_nat 10) "[FFmpeg] Exited (" +:+ code_or_signal code signal +:+ ")") ])
  | GetRoot =>
      (s, [ ResSendFile (path_join cfg [ dirname cfg; "public"; "viewer.html" ]) ])
  | GetApiInfo =>
      (s, [ ResJson (api_info cfg) ])
  | ProcessSignal INT =>
      (s, [ ProcessExit 0 ])
  | ProcessSignal TERM =>
      (s, [ DefaultSignalExit (signal_name TERM) ])
  end.

(** The start-up block: [nms.run()], then [server.listen]. *)
Definition start (cfg : Config) : list Effect :=
  [ NmsRun; HttpServerListen (HTTP_PORT cfg) "0.0.0.0" ].

(** The job record agrees with the operating system: the only child that
    can be alive is the tracked one, and it is alive exactly when its
    launch succeeded. *)
Definition tracked (cfg : Config) (s : State) : Prop :=
  children s = match ffmpegProc s with
               | Some pid => match spawn_pid cfg pid with Some _ => {[ pid ]} | None => ∅ end
               | None => ∅
               end.

Definition example_cfg : Config :=
  {| env_WEB_PORT := None; env_RTMP_PORT := None; dirname := "/srv/app";
     path_join := posix_join;
     nets := [ ("lo", [ {| family := "IPv4"; internal := true; address := "127.0.0.1" |} ]);
               ("eth0", [ {| family := "IPv6"; internal := false; address := "fe80::1" |};
                          {| family := "IPv4"; internal := false; address := "192.168.1.20" |} ]) ];
     spawn_pid := λ n, Some n |}.

(** The same machine without [ffmpeg] installed: every launch fails. *)
Definition no_ffmpeg_cfg : Config :=
  {| env_WEB_PORT := None; env_RTMP_PORT := None; dirname := "/srv/app";
     path_join := posix_join;
     nets := nets example_cfg;
     spawn_pid := λ _, None |}.

End Hls.

(** ** The server script of [src/logger.js]: the HTTP-FLV variant *)

Module Flv.

(** What the script finds around it. [nets] is what
    [os.networkInterfaces()] returns, and [None] when that call throws. *)
Record Config := {
  env_WEB_PORT : option string;
  env_RTMP_PORT : option string;
  env_NMS_HTTP_PORT : option string;
  dirname : string;
  path_join : list string → string;
  nets : option (list (string * list NetIf))
}.

Definition HTTP_PORT (cfg : Config) : string := env_or (env_WEB_PORT cfg) "3000".
Definition RTMP_PORT (cfg : Config) : string := env_or (env_RTMP_PORT cfg) "1935".
Definition NMS_HTTP_PORT (cfg : Config) : string := env_or (env_NMS_HTTP_PORT cfg) "8000".
Definition APP_NAME : string := "live".
Definition STREAM_KEY : string := "stream".

(** [getLocalIP()] of [logger.js]: the same loops inside [try], with what
    it logs. *)
Definition getLocalIP (nets : option (list (string * list NetIf))) : string * list Effect :=
  match nets with
  | Some properties =>
      match first_address (object_entries properties) with
      | Some a => (a, [ Log Info ("Detected local IP: " +:+ a) ])
      | None => ("127.0.0.1", [ Log Warn "Could not detect local IP, using localhost" ])
      end
  | None => ("127.0.0.1", [ Log Error "Error detecting IP address" ])
  end.

Definition SERVER_IP (cfg : Config) : string := (getLocalIP (nets cfg)).1.

(** The module-level sets [activeStreams] and [clients]. *)
Record State := {
  activeStreams : gset string;
  clients : gset Socket
}.

Definition init : State := {| activeStreams := ∅; clients := ∅ |}.

Inductive Event :=
| PreConnect (id : string)
| PostConnect (id : string)
| DoneConnect (id : string)
| PrePublish (id StreamPath : string)
| PostPublish (id StreamPath : string)
| DonePublish (id StreamPath : string)
| PrePlay (id StreamPath : string)
| PostPlay (id StreamPath : string)
| DonePlay (id StreamPath : string)
| GetFlvJs (ip : string)
| GetRoot (ip : string)
| GetApiInfo (ip : string)
| GetHealth (ip : string) (uptime : float) (now : string)
| Connection (socket : Socket)
| Disconnect (socket : Socket)
| SocketError (socket : Socket)
| SIGTERM
| SIGINT
| HttpServerClosed
| UncaughtException
| UnhandledRejection.

(** The payload of a [streamStatus] message. *)
Definition streamStatus (live : bool) (path : string) : JVal :=
  JObj [ ("live", JBool live); ("path", JStr path) ].

(** [GET /api/info]. *)
Definition api_info (cfg : Config) (s : State) : JVal :=
  JObj [ ("ip", JStr (SERVER_IP cfg));
         ("flv", JStr ("http://" +:+ SERVER_IP cfg +:+ ":" +:+ NMS_HTTP_PORT cfg
                       +:+ "/" +:+ APP_NAME +:+ "/" +:+ STREAM_KEY +:+ ".flv"));
         ("rtmpIngest", JStr ("rtmp://" +:+ SERVER_IP cfg +:+ ":" +:+ RTMP_PORT cfg
                              +:+ "/" +:+ APP_NAME +:+ "/" +:+ STREAM_KEY));
         ("isLive", JBool (bool_decide ("/" +:+ APP_NAME +:+ "/" +:+ STREAM_KEY ∈ activeStreams s)));
         ("viewers", JNum (size (clients s))) ].

(** [GET /health]; [uptime] is [process.uptime()] and [now] is
    [new Date().toISOString()] at the time of the request. *)
Definition health (s : State) (uptime : float) (now : string) : JVal :=
  JObj [ ("status", JStr "ok");
         ("uptime", JFloat uptime);
         ("timestamp", JStr now);
         ("activeStreams", JNum (size (activeStreams s)));
         ("viewers", JNum (size (clients s))) ].

(** The request-logging middleware, which runs before every route. *)
Definition request_log (url ip : string) : Effect :=
  Log Info ("GET " +:+ url +:+ " from " +:+ ip).

(** What the new viewer is told on connection. *)
Definition unicast_status (s : State) : JVal :=
  streamStatus (bool_decide (0 < size (activeStreams s)))
               ("/" +:+ APP_NAME +:+ "/" +:+ STREAM_KEY).

(** The handlers registered by the script. For SIGINT the media server
    registers one more, in [nms.run()], which runs after the script's and
    calls [process.exit()]: the process ends before the HTTP server has
    closed. *)
Definition handle (cfg : Config) (s : State) (e : Event) : State * list Effect :=
  match e with
  | PreConnect id => (s, [ Log Stream ("Client connecting: " +:+ id) ])
  | PostConnect id => (s, [ Log Stream ("Client connected: " +:+ id) ])
  | DoneConnect id => (s, [ Log Stream ("Client disconnected: " +:+ id) ])
  | PrePublish id StreamPath =>
      ({| activeStreams := {[ StreamPath ]} ∪ activeStreams s; clients := clients s |},
       [ Log Stream ("Stream publishing started: " +:+ StreamPath);
         IoEmit "streamStatus" (streamStatus true StreamPath) ])
  | PostPublish id StreamPath =>
      (s, [ Log Success ("Stream is now live: " +:+ StreamPath) ])
  | DonePublish id StreamPath =>
      ({| activeStreams := activeStreams s ∖ {[ StreamPath ]}; clients := clients s |},
       [ Log Stream ("Stream ended: " +:+ StreamPath);
         IoEmit "streamStatus" (streamStatus false StreamPath) ])
  | PrePlay id StreamPath =>
      (s, [ Log Stream ("Viewer started watching: " +:+ StreamPath) ])
  | PostPlay id StreamPath =>
      (s, [ Log Stream ("Viewer connected to: " +:+ StreamPath) ])
  | DonePlay id StreamPath =>
      (s, [ Log Stream ("Viewer stopped watching: " +:+ StreamPath) ])
  | GetFlvJs ip =>
      (s, [ request_log "/flv.min.js" ip;
            ResSendFile (path_join cfg [ dirname cfg; "node_modules/flv.js/dist/flv.min.js" ]) ])
  | GetRoot ip =>
      (s, [ request_log "/" ip;
            ResSendFile (path_join cfg [ dirname cfg; "public"; "viewer2.html" ]) ])
  | GetApiInfo ip =>
      (s, [ request_log "/api/info" ip; ResJson (api_info cfg s) ])
  | GetHealth ip uptime now =>
      (s, [ request_log "/health" ip; ResJson (health s uptime now) ])
  | Connection socket =>
      let s' := {| activeStreams := activeStreams s; clients := {[ socket ]} ∪ clients s |} in
      let clientCount := size (clients s') in
      (s', [ Log Client ("New viewer connected (Total: " +:+ pretty clientCount +:+ ")");
             IoEmit "viewerCount" (JNum clientCount);
             SocketEmit socket "streamStatus" (unicast_status s') ])
  | Disconnect socket =>
      let s' := {| activeStreams := activeStreams s; clients := clients s ∖ {[ socket ]} |} in
      let remainingClients := size (clients s') in
      (s', [ Log Client ("Viewer disconnected (Remaining: " +:+ pretty remainingClients +:+ ")");
             IoEmit "viewerCount" (JNum remainingClients) ])
  | SocketError socket =>
      (s, [ Log Error ("Socket error for client " +:+ pretty socket) ])
  | SIGTERM =>
      (s, [ Log Warn "SIGTERM received, shutting down gracefully..."; HttpServerClose ])
  | SIGINT =>
      (s, [ Log Warn "SIGINT received, shutting down gracefully..."; HttpServerClose;
            ProcessExit 0 ])
  | HttpServerClosed =>
      (s, [ Log Info "HTTP server closed"; NmsStop; ProcessExit 0 ])
  | UncaughtException =>
      (s, [ Log Error "Uncaught Exception"; ProcessExit 1 ])
  | UnhandledRejection =>
      (s, [ Log Error "Unhandled Rejection at:" ])
  end.

(** The recorded liveness of the identity published under [path]. *)
Definition live (path : string) (s : State) : bool :=
  bool_decide (path ∈ activeStreams s).

(** [isLive] as [GET /api/info] reports it, and [live] as the message to a
    new viewer reports it. *)
Definition info_isLive (cfg : Config) (s : State) : option JVal :=
  field "isLive" (api_info cfg s).

Definition unicast_live (s : State) : option JVal :=
  field "live" (unicast_status s).

(** Where the start-up block throws, if it does. *)
Inductive StartFailure := RunThrows | ListenThrows.

(** The start-up block, with its [catch] clause. *)
Definition start (cfg : Config) (failure : option StartFailure) : list Effect :=
  let failed := [ Log Error "Failed to start server"; ProcessExit 1 ] in
  [ Log ServerLog "Starting streaming server..."; NmsRun ]
  ++ match failure with
     | Some RunThrows => failed
     | _ =>
         [ Log Success ("RTMP Server started on port " +:+ RTMP_PORT cfg);
           Log Success ("HTTP-FLV Server started on port " +:+ NMS_HTTP_PORT cfg);
           HttpServerListen (HTTP_PORT cfg) "0.0.0.0" ]
         ++ match failure with
            | Some ListenThrows => failed
            | _ => []
            end
     end.

Definition example_cfg : Config :=
  {| env_WEB_PORT := None; env_RTMP_PORT := Some "1936"; env_NMS_HTTP_PORT := Some "";
     dirname := "/srv/app";
     path_join := posix_join;
     nets := Some [ ("eth0", [ {| family := "IPv4"; internal := false; address := "10.0.0.5" |} ]) ] |}.

End Flv.

(** ** [src/unnamed/part_000]: the mediasoup viewer page *)

Module Client.

(** Descriptors exchanged over the notification channel. Parameters that
    the page only passes on are kept as opaque strings. *)
Record TransportInfo := {
  t_id : string;
  iceParameters : string;
  iceCandidates : string;
  dtlsParameters : string
}.

Record ConsumerDesc := {
  c_id : string;
  producerId : string;
  kind : string;
  rtpParameters : string
}.

(** The acknowledgement of [consume]: its [consumers] field may be
    missing. *)
Record ConsumeResp := { consumers : option (list ConsumerDesc) }.

Record Info := { ip : option string; mac : option string }.

Inductive Callback := Init.

Inductive Action :=
| Fetch (url : string)
| SetText (element text : string)
| Emit (event : string) (rtpCapabilities : option (list string))
| DeviceLoad (routerRtpCapabilities : list string)
| CreateRecvTransport (t : TransportInfo)
| TransportOn (event : string)
| TransportConsume (c : ConsumerDesc)
| CreateAudioElement
| SetSrcObject (element consumer : string)
| Play (element : string)
| SocketOn (event : string)
| ConsoleWarn (msg : string)
| ConsoleError (msg : string)
| SetTimeout (callback : Callback) (ms : nat)
| EmitConnectTransport (dtlsParameters : string)
| TransportCallback
| TransportErrback (msg : string).

(** Everything outside the page that one run of [init] depends on: the
    elements present in the document, and the outcome of each awaited
    call once it settles (an error message on the left when it rejects,
    [None] when an acknowledgement carries a falsy value). *)
Record World := {
  has_ipEl : bool;
  has_macEl : bool;
  has_remote_audio : bool;
  fetch_info : string + Info;
  ack_getRouterRtpCapabilities : option (list string);
  device_load : list string -> string + list string;
  ack_createTransport : option TransportInfo;
  ack_consume : option ConsumeResp;
  transport_consume : ConsumerDesc -> string + unit;
  play : string -> string + unit
}.

(** The calls [init] awaits. Nothing in the page bounds the time any of
    them takes: a request is settled by the server's acknowledgement
    alone, and the others by the browser and the mediasoup library. *)
Inductive Awaited :=
| FetchInfo
| Ack (event : string)
| DeviceLoaded
| Consumed (c : ConsumerDesc)
| Played (element : string).

(** Where a piece of asynchronous code stands: it threw, it produced a
    value, or it is still waiting for a call that never settles. *)
Inductive Outcome (A : Type) :=
| Throws (msg : string)
| Returns (a : A)
| Waits.
Arguments Throws {A} msg.
Arguments Returns {A} a.
Arguments Waits {A}.

(** A run of asynchronous code: the actions performed so far, and where
    it stands. *)
Definition Run (A : Type) : Type := list Action * Outcome A.

#[local] Instance Run_ret : MRet Run := λ A a, ([], Returns a).

#[local] Instance Run_bind : MBind Run := λ A B k m,
  match m with
  | (tr, Returns a) => let '(tr', r) := k a in (tr ++ tr', r)
  | (tr, Throws err) => (tr, Throws err)
  | (tr, Waits) => (tr, Waits)
  end.

Definition act (a : Action) : Run unit := ([ a ], Returns tt).
Definition throw {A} (msg : string) : Run A := ([], Throws msg).

(** [await call]: [settles] tells whether the call ever settles, and [r]
    how it does. *)
Definition await {A} (settles : Awaited -> bool) (call : Awaited) (r : string + A) : Run A :=
  if settles call
  then ([], match r with inl err => Throws err | inr a => Returns a end)
  else ([], Waits).

(** [await new Promise((resolve, reject) => socket.emit(event, payload, ack))]
    where the acknowledgement rejects with [msg] on a falsy value. *)
Definition request {A} (settles : Awaited -> bool) (event : string)
    (payload : option (list string)) (reply : option A) (msg : string) : Run A :=
  act (Emit event payload) ;;
  await settles (Ack event)
        match reply with Some a => inr a | None => inl msg end.

Definition try_catch (body : Run unit) (handler : string -> Run unit) : Run unit :=
  match body with
  | (tr, Throws err) => let '(tr', r) := handler err in (tr ++ tr', r)
  | other => other
  end.

Definition when (b : bool) (m : Run unit) : Run unit := if b then m else mret tt.

(** [try { await el.play(); } catch (e) { console.warn(msg, e); }] *)
Definition try_play (settles : Awaited -> bool) (w : World) (element msg : string)
    : Run unit :=
  try_catch (act (Play element) ;; await settles (Played element) (play w element))
            (λ _, act (ConsoleWarn msg)).

(** The body of the [for (const c of consumeResp.consumers)] loop;
    [audio] tells whether [#remote-audio] is in the document. *)
Fixpoint attach (settles : Awaited -> bool) (w : World) (audio : bool)
    (cs : list ConsumerDesc) : Run unit :=
  match cs with
  | [] => mret tt
  | c :: rest =>
      act (TransportConsume c) ;;
      await settles (Consumed c) (transport_consume w c) ;;
      audio' ←
        (if decide (kind c = "video") then
           act (SetSrcObject "video" (c_id c)) ;;
           try_play settles w "video" "video play failed" ;;
           mret audio
         else if decide (kind c = "audio") then
           when (negb audio) (act CreateAudioElement) ;;
           act (SetSrcObject "remote-audio" (c_id c)) ;;
           try_play settles w "remote-audio" "audio play fail" ;;
           mret true
         else mret audio) ;
      act (SocketOn ("consumer-resume-" +:+ c_id c)) ;;
      attach settles w audio' rest
  end.

(** The listener that [init] registers for the transport's [connect]
    event, which the mediasoup library fires when the transport has to be
    connected. [reply] is the server's acknowledgement of
    [connectTransport]: [None] when it never comes, [Some None] when it
    carries a falsy value, and otherwise the truth of its [ok] field. *)
Definition on_connect (dtlsParameters : string) (reply : option (option bool))
    : list Action :=
  EmitConnectTransport dtlsParameters
  :: match reply with
     | None => []
     | Some (Some true) => [ TransportCallback ]
     | Some _ => [ TransportErrback "connectTransport fail" ]
     end.

(** The [try] block of [init]. [TransportOn "connect"] registers
    [on_connect]. *)
Definition negotiate (settles : Awaited -> bool) (w : World) : Run unit :=
  act (Fetch "/api/info") ;;
  info ← await settles FetchInfo (fetch_info w) ;
  when (has_ipEl w) (act (SetText "ip" (default "" (ip info)))) ;;
  when (has_macEl w) (act (SetText "mac" (default "" (mac info)))) ;;
  rtpCapabilities ←
    request settles "getRouterRtpCapabilities" None (ack_getRouterRtpCapabilities w)
            "No rtpCapabilities" ;
  act (DeviceLoad rtpCapabilities) ;;
  deviceCaps ← await settles DeviceLoaded (device_load w rtpCapabilities) ;
  transportInfo ←
    request settles "createTransport" None (ack_createTransport w)
            "createTransport failed" ;
  act (CreateRecvTransport transportInfo) ;;
  act (TransportOn "connect") ;;
  consumeResp ←
    request settles "consume" (Some deviceCaps) (ack_consume w) "consume failed" ;
  match consumers consumeResp with
  | None | Some [] =>
      act (ConsoleWarn "No consumers available yet. Retrying in 1s...") ;;
      act (SetTimeout Init 1000)
  | Some cs =>
      attach settles w (has_remote_audio w) cs ;;
      act (SocketOn "stream-status")
  end.

(** [init()]: the whole negotiation, with its [catch] clause. *)
Definition init_when (settles : Awaited -> bool) (w : World) : list Action :=
  fst (try_catch (negotiate settles w)
                 (λ _, act (ConsoleError "init error") ;; act (SetTimeout Init 1500))).

(** A run of [init()] in which every awaited call settles. *)
Definition init (w : World) : list Action := init_when (λ _, true) w.

Definition is_consume (a : Action) : bool :=
  match a with TransportConsume _ => true | _ => false end.

End Client.

(** ** The server side of the peer-connection leg *)

Module Negotiation.

Record Producer := { p_id : string; p_kind : string; p_codec : string }.

Definition consumer_for (p : Producer) : Client.ConsumerDesc :=
  {| Client.c_id := "consumer-" +:+ p_id p;
     Client.producerId := p_id p;
     Client.kind := p_kind p;
     Client.rtpParameters := p_codec p |}.

(** Modelled from the spec: the server-side handler of [consume] (the
    mediasoup server script is not among the sources). The server creates
    one consumer per producer compatible with the capabilities the viewer
    declared, and returns their descriptors. *)
Definition consume (producers : list Producer) (rtpCapabilities : list string)
    : Client.ConsumeResp :=
  {| Client.consumers :=
       Some (map consumer_for
                 (filter (λ p, p_codec p ∈ rtpCapabilities) producers)) |}.

End Negotiation.

(** ** Measures on effect traces and event sequences *)

Definition spawns (effs : list Effect) : nat := length (List.filter is_spawn effs).
Definition kills (effs : list Effect) : nat := length (List.filter is_kill effs).

Definition is_emit (e : Effect) : bool :=
  match e with IoEmit _ _ | SocketEmit _ _ _ => true | _ => false end.

Definition emits (effs : list Effect) : nat := length (List.filter is_emit effs).

(** The operating system only reports the exit of a child that is alive. *)
Definition exit_of_live_child (s : Hls.State) (e : Hls.Event) : Prop :=
  match e with
  | Hls.FfmpegExit pid _ _ => pid ∈ Hls.children s
  | _ => True
  end.

(** A [prePublish] for the one path that starts the transcoder. *)
Definition is_input_publish (e : Hls.Event) : bool :=
  match e with
  | Hls.PrePublish _ streamPath => bool_decide (streamPath = "/input/stream")
  | _ => false
  end.

(** A state of [server.js] in which a publish has started [ffmpeg] while one
    viewer is connected. *)
Definition hls_streaming : Hls.State :=
  fst (run (Hls.handle Hls.example_cfg) Hls.init
           [ Hls.Connection 5; Hls.PrePublish "c1" "/input/stream" ]).

(** A state of [logger.js] in which a publish on the configured path is
    active while one viewer is connected. *)
Definition flv_streaming : Flv.State :=
  fst (run (Flv.handle Flv.example_cfg) Flv.init
           [ Flv.Connection 5; Flv.PrePublish "c1" "/live/stream" ]).

(** Events of one identity: its [prePublish] and [donePublish]. *)
Definition on_identity (path : string) (e : Flv.Event) : bool :=
  match e with
  | Flv.PrePublish _ p | Flv.DonePublish _ p => bool_decide (p = path)
  | _ => false
  end.

Definition is_prePublish (e : Flv.Event) : bool :=
  match e with
  | Flv.PrePublish _ _ => true
  | _ => false
  end.

(** Viewer events, as both scripts receive them from socket.io. *)
Inductive ViewerEv :=
| Join (socket : Socket)
| Leave (socket : Socket).

Definition hls_viewer (v : ViewerEv) : Hls.Event :=
  match v with
  | Join socket => Hls.Connection socket
  | Leave socket => Hls.Disconnect socket
  end.

Definition flv_viewer (v : ViewerEv) : Flv.Event :=
  match v with
  | Join socket => Flv.Connection socket
  | Leave socket => Flv.Disconnect socket
  end.

Definition is_join (v : ViewerEv) : bool :=
  match v with Join _ => true | Leave _ => false end.

Definition joins (evs : list ViewerEv) : nat := length (List.filter is_join evs).
Definition leaves (evs : list ViewerEv) : nat :=
  length (List.filter (λ v, negb (is_join v)) evs).

(** The sequences socket.io can deliver: a [connection] brings a socket
    object that is not connected yet, and [disconnect] fires on a socket
    that is. *)
Fixpoint well_formed (connected : gset Socket) (evs : list ViewerEv) : bool :=
  match evs with
  | [] => true
  | Join socket :: rest =>
      bool_decide (socket ∉ connected) && well_formed ({[ socket ]} ∪ connected) rest
  | Leave socket :: rest =>
      bool_decide (socket ∈ connected) && well_formed (connected ∖ {[ socket ]}) rest
  end.

(** A page for which every step before [consume] succeeds, talking to a
    server that has no producer. *)
Definition idle_world : Client.World :=
  {| Client.has_ipEl := true;
     Client.has_macEl := false;
     Client.has_remote_audio := false;
     Client.fetch_info := inr {| Client.ip := Some "10.0.0.5"; Client.mac := None |};
     Client.ack_getRouterRtpCapabilities := Some [ "video/H264"; "audio/opus" ];
     Client.device_load := λ caps, inr caps;
     Client.ack_createTransport :=
       Some {| Client.t_id := "t1"; Client.iceParameters := "ice";
               Client.iceCandidates := "cand"; Client.dtlsParameters := "dtls" |};
     Client.ack_consume := Some (Negotiation.consume [] [ "video/H264"; "audio/opus" ]);
     Client.transport_consume := λ _, inr tt;
     Client.play := λ _, inr tt |}.

Definition is_timer (a : Client.Action) : bool :=
  match a with Client.SetTimeout _ _ => true | _ => false end.

(** ** Observers for the rest of the scripts *)

(** The test of [getLocalIP] on one interface. *)
Definition external_ipv4 (ni : NetIf) : bool :=
  bool_decide (family ni = "IPv4") && negb (internal ni).

Definition is_exit (e : Hls.Event) : bool :=
  match e with Hls.FfmpegExit _ _ _ => true | _ => false end.

(** Along a run of [server.js], every reported exit is that of a child
    alive at that moment. *)
Fixpoint live_exits (cfg : Hls.Config) (s : Hls.State) (evs : list Hls.Event) : bool :=
  match evs with
  | [] => true
  | e :: rest =>
      match e with
      | Hls.FfmpegExit pid _ _ => bool_decide (pid ∈ Hls.children s)
      | _ => true
      end && live_exits cfg (Hls.handle cfg s e).1 rest
  end.

(** 1 when no transcoder is tracked, 0 when one is. *)
Definition idle (s : Hls.State) : nat :=
  match Hls.ffmpegProc s with Some _ => 0 | None => 1 end.

Definition hls_is_viewer (e : Hls.Event) : bool :=
  match e with Hls.Connection _ | Hls.Disconnect _ => true | _ => false end.

Definition flv_is_viewer (e : Flv.Event) : bool :=
  match e with Flv.Connection _ | Flv.Disconnect _ => true | _ => false end.

Definition flv_is_publish (e : Flv.Event) : bool :=
  match e with Flv.PrePublish _ _ | Flv.DonePublish _ _ => true | _ => false end.

(** What one event says about the liveness of [path], if anything. *)
Definition publish_of (path : string) (e : Flv.Event) : option bool :=
  match e with
  | Flv.PrePublish _ p => if decide (p = path) then Some true else None
  | Flv.DonePublish _ p => if decide (p = path) then Some false else None
  | _ => None
  end.

(** The most recent [prePublish] ([true]) or [donePublish] ([false]) of
    [path] in a sequence of events. *)
Fixpoint last_publish (path : string) (evs : list Flv.Event) : option bool :=
  match evs with
  | [] => None
  | e :: rest =>
      match last_publish path rest with
      | Some b => Some b
      | None => publish_of path e
      end
  end.

(** What a broadcast tells the viewers about the liveness of [path], if
    anything: the [live] field of a [streamStatus] sent with [io.emit] for
    that path. *)
Definition status_of (path : string) (e : Effect) : option bool :=
  match e with
  | IoEmit event (JObj [ ("live", JBool b); ("path", JStr p) ]) =>
      if decide (event = "streamStatus") then
        if decide (p = path) then Some b else None
      else None
  | _ => None
  end.

Definition statuses (path : string) (effs : list Effect) : list bool :=
  omap (status_of path) effs.


(** [args[args.indexOf(flag) + 1]]. *)
Fixpoint arg_after (flag : string) (args : list string) : option string :=
  match args with
  | a :: rest => if String.eqb flag a then head rest else arg_after flag rest
  | [] => None
  end.

(** ["=".repeat(n)]. *)
Fixpoint string_repeat (s : string) (n : nat) : string :=
  match n with
  | 0 => ""
  | S n' => s +:+ string_repeat s n'
  end.

(** The callback of [server.listen] in [server.js]. *)
Definition hls_on_listening (cfg : Hls.Config) : list Effect :=
  [ Log Console ("✅ Viewer:      http://" +:+ Hls.SERVER_IP cfg +:+ ":" +:+ Hls.HTTP_PORT cfg +:+ "/");
    Log Console ("✅ RTMP Ingest: rtmp://" +:+ Hls.SERVER_IP cfg +:+ ":" +:+ Hls.RTMP_PORT cfg
                 +:+ "/" +:+ Hls.INPUT_APP +:+ "/" +:+ Hls.STREAM_KEY);
    Log Console ("✅ HLS Stream:  http://" +:+ Hls.SERVER_IP cfg +:+ ":" +:+ Hls.HTTP_PORT cfg
                 +:+ "/live/stream.m3u8") ].

(** The callback of [server.listen] in [logger.js]. *)
Definition flv_on_listening (cfg : Flv.Config) : list Effect :=
  [ Log Console (String (Ascii.ascii_of_nat 10) (string_repeat "=" 60));
    Log ServerLog "Low-Latency Streaming Server Ready!";
    Log Console (string_repeat "=" 60);
    Log Success ("Viewer Interface: http://" +:+ Flv.SERVER_IP cfg +:+ ":"
                 +:+ Flv.HTTP_PORT cfg +:+ "/");
    Log Success ("RTMP Ingest: rtmp://" +:+ Flv.SERVER_IP cfg +:+ ":" +:+ Flv.RTMP_PORT cfg
                 +:+ "/" +:+ Flv.APP_NAME +:+ "/" +:+ Flv.STREAM_KEY);
    Log Success ("FLV Stream: http://" +:+ Flv.SERVER_IP cfg +:+ ":" +:+ Flv.NMS_HTTP_PORT cfg
                 +:+ "/" +:+ Flv.APP_NAME +:+ "/" +:+ Flv.STREAM_KEY +:+ ".flv");
    Log Console (string_repeat "=" 60);
    Log Info ("Logs directory: " +:+ Flv.path_join cfg [ Flv.dirname cfg; "logs" ]);
    Log Info "Ready to accept streams and viewers";
    Log Console (string_repeat "=" 60 +:+ String (Ascii.ascii_of_nat 10) "") ].

(** Measures on a run of the viewer page. *)
Definition timers (tr : list Client.Action) : nat := length (List.filter is_timer tr).

Definition consumed (tr : list Client.Action) : list Client.ConsumerDesc :=
  omap (λ a, match a with Client.TransportConsume c => Some c | _ => None end) tr.

Definition listeners (tr : list Client.Action) : list string :=
  omap (λ a, match a with Client.SocketOn event => Some event | _ => None end) tr.

(** The requests sent over the socket, by name. *)
Definition emitted (tr : list Client.Action) : list string :=
  omap (λ a, match a with
             | Client.Emit event _ => Some event
             | Client.EmitConnectTransport _ => Some "connectTransport"
             | _ => None
             end) tr.

Definition audio_elements_created (tr : list Client.Action) : nat :=
  length (List.filter (λ a, match a with Client.CreateAudioElement => true | _ => false end) tr).

Definition reported (tr : list Client.Action) : list string :=
  omap (λ a, match a with Client.ConsoleError msg => Some msg | _ => None end) tr.

(** The transport listeners registered by the time the request [event] is
    first sent, and [None] if it never is. *)
Fixpoint listening_when_sent (event : string) (tr : list Client.Action)
    : option (list string) :=
  match tr with
  | [] => None
  | Client.Emit sent _ :: rest =>
      if String.eqb sent event then Some [] else listening_when_sent event rest
  | Client.TransportOn listener :: rest =>
      (λ others, listener :: others) <$> listening_when_sent event rest
  | _ :: rest => listening_when_sent event rest
  end.

(** The listener registered for one consumer. *)
Definition resume_event (c : Client.ConsumerDesc) : string :=
  "consumer-resume-" +:+ Client.c_id c.

(** Flat descriptions of the traces of the viewer page, proved equal to the
    monadic ones below: what a rejected [play()] adds, what attaching one
    consumer does between [recvTransport.consume] and the registration of
    its resume listener (with the new value of the [#remote-audio] flag, or
    [None] when [play()] never settles), and the actions of [init] up to
    the first request and up to the [consume] request. *)
Definition warn_if_rejected (r : string + unit) (msg : string) : list Client.Action :=
  match r with inl _ => [ Client.ConsoleWarn msg ] | inr _ => [] end.

Definition playing (settles : Client.Awaited → bool) (w : Client.World)
    (element msg : string) : list Client.Action :=
  Client.Play element
  :: (if settles (Client.Played element)
      then warn_if_rejected (Client.play w element) msg else []).

Definition media (settles : Client.Awaited → bool) (w : Client.World) (audio : bool)
    (c : Client.ConsumerDesc) : list Client.Action * option bool :=
  if decide (Client.kind c = "video") then
    (Client.SetSrcObject "video" (Client.c_id c)
       :: playing settles w "video" "video play failed",
     if settles (Client.Played "video") then Some audio else None)
  else if decide (Client.kind c = "audio") then
    ((if audio then [] else [ Client.CreateAudioElement ])
       ++ Client.SetSrcObject "remote-audio" (Client.c_id c)
       :: playing settles w "remote-audio" "audio play fail",
     if settles (Client.Played "remote-audio") then Some true else None)
  else ([], Some audio).

Definition greeting (w : Client.World) (info : Client.Info) : list Client.Action :=
  [ Client.Fetch "/api/info" ]
  ++ (if Client.has_ipEl w then [ Client.SetText "ip" (default "" (Client.ip info)) ] else [])
  ++ (if Client.has_macEl w then [ Client.SetText "mac" (default "" (Client.mac info)) ] else [])
  ++ [ Client.Emit "getRouterRtpCapabilities" None ].

Definition handshake (w : Client.World) (info : Client.Info) (rc dc : list string)
    (t : Client.TransportInfo) : list Client.Action :=
  greeting w info
  ++ [ Client.DeviceLoad rc; Client.Emit "createTransport" None;
       Client.CreateRecvTransport t; Client.TransportOn "connect";
       Client.Emit "consume" (Some dc) ].

(** Every awaited call settles but the acknowledgement of [consume]. *)
Definition consume_unanswered (call : Client.Awaited) : bool :=
  match call with
  | Client.Ack event => negb (String.eqb event "consume")
  | _ => true
  end.

(** A page for which the handshake succeeds, offered one video and two
    audio consumers, in a browser that refuses to start playback. *)
Definition busy_world : Client.World :=
  {| Client.has_ipEl := false;
     Client.has_macEl := false;
     Client.has_remote_audio := false;
     Client.fetch_info := inr {| Client.ip := None; Client.mac := None |};
     Client.ack_getRouterRtpCapabilities := Some [ "video/H264"; "audio/opus" ];
     Client.device_load := λ caps, inr caps;
     Client.ack_createTransport :=
       Some {| Client.t_id := "t1"; Client.iceParameters := "ice";
               Client.iceCandidates := "cand"; Client.dtlsParameters := "dtls" |};
     Client.ack_consume :=
       Some (Negotiation.consume
               [ {| Negotiation.p_id := "p1"; Negotiation.p_kind := "video";
                    Negotiation.p_codec := "video/H264" |};
                 {| Negotiation.p_id := "p2"; Negotiation.p_kind := "audio";
                    Negotiation.p_codec := "audio/opus" |};
                 {| Negotiation.p_id := "p3"; Negotiation.p_kind := "audio";
                    Negotiation.p_codec := "audio/opus" |} ]
               [ "video/H264"; "audio/opus" ]);
     Client.transport_consume := λ _, inr tt;
     Client.play := λ _, inl "NotAllowedError" |}.

(** * Properties *)

Lemma run_app {St Ev} (handle : St -> Ev -> St * list Effect) s evs1 evs2 :
  run handle s (evs1 ++ evs2) =
  let '(s1, effs1) := run handle s evs1 in
  let '(s2, effs2) := run handle s1 evs2 in
  (s2, effs1 ++ effs2).
Proof.
  revert s. induction evs1 as [|e evs1 IH]; intros s; simpl.
  - by destruct (run handle s evs2).
  - destruct (handle s e) as [s1 effs1]. rewrite IH.
    destruct (run handle s1 evs1) as [s2 effs2].
    destruct (run handle s2 evs2) as [s3 effs3]. by rewrite app_assoc.
Qed.

Lemma spawns_app effs1 effs2 : spawns (effs1 ++ effs2) = spawns effs1 + spawns effs2.
Proof. unfold spawns. by rewrite List.filter_app, length_app. Qed.

Lemma viewer_counts_app effs1 effs2 :
  viewer_counts (effs1 ++ effs2) = viewer_counts effs1 ++ viewer_counts effs2.
Proof. apply omap_app. Qed.

(** ** The transcoder of [server.js] *)

Lemma startFFmpeg_running cfg s pid :
  Hls.ffmpegProc s = Some pid → Hls.startFFmpeg cfg s = (s, []).
Proof. intros H. unfold Hls.startFFmpeg. by rewrite H. Qed.

Lemma startFFmpeg_tracked cfg s :
  Hls.tracked cfg s → Hls.tracked cfg (Hls.startFFmpeg cfg s).1.
Proof.
  unfold Hls.tracked, Hls.startFFmpeg. intros H.
  destruct (Hls.ffmpegProc s) as [pid|] eqn:E; simpl.
  - by rewrite E.
  - rewrite H. destruct (Hls.spawn_pid cfg (Hls.next_pid s)); [|done].
    apply (right_id_L ∅ (∪)).
Qed.

Lemma hls_handle_tracked cfg s e :
  exit_of_live_child s e → Hls.tracked cfg s → Hls.tracked cfg (Hls.handle cfg s e).1.
Proof.
  intros Hlive Ht. destruct e as [ | | | | | | | |[|]]; simpl; try done.
  - destruct (decide _); [|done].
    pose proof (startFFmpeg_tracked cfg s Ht) as H.
    by destruct (Hls.startFFmpeg cfg s).
  - unfold Hls.tracked in *. simpl in *.
    destruct (Hls.ffmpegProc s) as [p|]; [destruct (Hls.spawn_pid cfg p)|];
      rewrite Ht in *; set_solver.
Qed.

Lemma tracked_size cfg s :
  Hls.tracked cfg s →
  size (Hls.children s)
  = match Hls.ffmpegProc s with
    | Some pid => match Hls.spawn_pid cfg pid with Some _ => 1 | None => 0 end
    | None => 0
    end.
Proof.
  unfold Hls.tracked. intros ->.
  destruct (Hls.ffmpegProc s) as [pid|]; [destruct (Hls.spawn_pid cfg pid)|];
    by rewrite ?size_singleton, ?size_empty.
Qed.

(** At most one transcoding job: whatever happens, the only child process
    that can be alive is the tracked one. *)
Lemma hls_at_most_one_child cfg s e :
  exit_of_live_child s e → Hls.tracked cfg s →
  size (Hls.children (Hls.handle cfg s e).1) ≤ 1.
Proof.
  intros Hlive Ht. pose proof (hls_handle_tracked cfg s e Hlive Ht) as H.
  rewrite (tracked_size cfg _ H).
  destruct (Hls.ffmpegProc _) as [pid|]; [destruct (Hls.spawn_pid cfg pid)|]; lia.
Qed.

(** C2: [startFFmpeg] is idempotent. In a state where a transcoding job is
    tracked, a call changes nothing and has no effect; whatever the state,
    a second call right after a first one is such a no-op. When no job was
    tracked, the two calls together make exactly one launch, that of
    [ffmpeg] with the script's arguments, the object it returns is the one
    tracked afterwards, and the set of live children grows by that child if
    the operating system started it and is unchanged if the launch failed.
    When the job record agreed with the operating system beforehand, it
    still does afterwards: at most one child is alive, exactly one if the
    launch of the tracked job succeeded and none if it failed. *)
Theorem startFFmpeg_idempotent (cfg : Hls.Config) (s : Hls.State) :
  (is_Some (Hls.ffmpegProc s) → Hls.startFFmpeg cfg s = (s, [])) ∧
  let '(s1, effs1) := Hls.startFFmpeg cfg s in
  let '(s2, effs2) := Hls.startFFmpeg cfg s1 in
  is_Some (Hls.ffmpegProc s1) ∧
  s2 = s1 ∧ effs2 = [] ∧
  spawns (effs1 ++ effs2) = match Hls.ffmpegProc s with Some _ => 0 | None => 1 end ∧
  (Hls.ffmpegProc s = None →
   List.filter is_spawn (effs1 ++ effs2)
   = [ Spawn "ffmpeg" (Hls.ffmpeg_args cfg) (Hls.next_pid s) ] ∧
   Hls.ffmpegProc s2 = Some (Hls.next_pid s) ∧
   Hls.children s2 = match Hls.spawn_pid cfg (Hls.next_pid s) with
                     | Some _ => {[ Hls.next_pid s ]} ∪ Hls.children s
                     | None => Hls.children s
                     end) ∧
  (Hls.tracked cfg s →
   Hls.tracked cfg s2 ∧
   size (Hls.children s2) ≤ 1 ∧
   ∀ pid, Hls.ffmpegProc s2 = Some pid →
          size (Hls.children s2)
          = match Hls.spawn_pid cfg pid with Some _ => 1 | None => 0 end).
Proof.
  split.
  { intros [pid H]. by eapply startFFmpeg_running. }
  pose proof (startFFmpeg_tracked cfg s) as Ht.
  destruct (Hls.startFFmpeg cfg s) as [s1 effs1] eqn:E1.
  assert (Hsome : is_Some (Hls.ffmpegProc s1)).
  { unfold Hls.startFFmpeg in E1.
    destruct (Hls.ffmpegProc s) eqn:E; inversion E1; subst; simpl; rewrite ?E; eauto. }
  destruct Hsome as [pid1 Hpid1].
  rewrite (startFFmpeg_running cfg s1 pid1 Hpid1).
  split; [eauto|]. do 2 (split; [done|]). split_and!.
  - rewrite app_nil_r. unfold Hls.startFFmpeg in E1.
    destruct (Hls.ffmpegProc s); by inversion E1.
  - intros Hnone. rewrite app_nil_r. unfold Hls.startFFmpeg in E1.
    rewrite Hnone in E1. by inversion E1.
  - intros H. specialize (Ht H). cbn [fst] in Ht.
    pose proof (tracked_size cfg s1 Ht) as Hsz.
    split; [done|]. split.
    + rewrite Hsz, Hpid1. destruct (Hls.spawn_pid cfg pid1); lia.
    + intros pid Hpid. rewrite Hsz, Hpid. done.
Qed.

Lemma startFFmpeg_idempotent_witness :
  let '(s1, _) := Hls.startFFmpeg Hls.example_cfg Hls.init in
  let '(s2, _) := Hls.startFFmpeg Hls.example_cfg s1 in
  Hls.tracked Hls.example_cfg s2 ∧ size (Hls.children s2) ≤ 1.
Proof.
  pose proof (startFFmpeg_idempotent Hls.example_cfg Hls.init) as [_ H].
  destruct (Hls.startFFmpeg Hls.example_cfg Hls.init) as [s1 effs1].
  destruct (Hls.startFFmpeg Hls.example_cfg s1) as [s2 effs2].
  destruct H as (_ & _ & _ & _ & _ & H).
  destruct (H eq_refl) as (H1 & H2 & _). done.
Defined.

(** C9: in [server.js], a [prePublish] launches the transcoder exactly when
    its stream path is ["/input/stream"] and no child process is tracked.
    What it launches then is [ffmpeg] with the script's arguments, which
    make it read the stream just published from the media server, and
    nothing else; the object [spawn] returns becomes the tracked job, and
    the child joins the live children if the operating system started it.
    In every other case nothing is launched, the event is only logged and
    the state, and with it the transcoder, is unchanged; that is so in
    particular for every publish under another path. *)
Theorem prePublish_launches_iff (cfg : Hls.Config) (s : Hls.State) (id streamPath : string) :
  let '(s', effs) := Hls.handle cfg s (Hls.PrePublish id streamPath) in
  let launch := Spawn "ffmpeg" (Hls.ffmpeg_args cfg) (Hls.next_pid s) in
  (In launch effs ↔ streamPath = "/input/stream" ∧ Hls.ffmpegProc s = None) ∧
  (spawns effs = 1 ↔ streamPath = "/input/stream" ∧ Hls.ffmpegProc s = None) ∧
  (spawns effs = 0 ↔ ¬ (streamPath = "/input/stream" ∧ Hls.ffmpegProc s = None)) ∧
  (spawns effs = 1 →
   effs = [ Log Console ("[NMS prePublish] " +:+ streamPath); launch;
            Log Console ("[FFmpeg] Started (PID: "
                         +:+ Hls.pid_text (Hls.spawn_pid cfg (Hls.next_pid s)) +:+ ")") ] ∧
   Hls.ffmpegProc s' = Some (Hls.next_pid s) ∧
   Hls.children s' = match Hls.spawn_pid cfg (Hls.next_pid s) with
                     | Some _ => {[ Hls.next_pid s ]} ∪ Hls.children s
                     | None => Hls.children s
                     end ∧
   Hls.clients s' = Hls.clients s ∧
   arg_after "-i" (Hls.ffmpeg_args cfg)
   = Some ("rtmp://127.0.0.1:" +:+ Hls.RTMP_PORT cfg +:+ streamPath)) ∧
  (spawns effs = 0 →
   s' = s ∧ effs = [ Log Console ("[NMS prePublish] " +:+ streamPath) ]) ∧
  (streamPath ≠ "/input/stream" →
   s' = s ∧ effs = [ Log Console ("[NMS prePublish] " +:+ streamPath) ]).
Proof.
  simpl. change ("/" +:+ Hls.INPUT_APP +:+ "/" +:+ Hls.STREAM_KEY) with "/input/stream".
  destruct (decide (streamPath = "/input/stream")) as [Heq|Hne].
  - unfold Hls.startFFmpeg.
    destruct (Hls.ffmpegProc s) as [pid|] eqn:E; simpl; unfold spawns; simpl.
    + split_and!; try done; try naive_solver.
    + split_and!; try done; try naive_solver.
  - unfold spawns; simpl. split_and!; try done; try naive_solver.
Qed.

Lemma prePublish_launches_iff_witness :
  (let '(s', effs) :=
     Hls.handle Hls.example_cfg Hls.init (Hls.PrePublish "c1" "/input/stream") in
   In (Spawn "ffmpeg" (Hls.ffmpeg_args Hls.example_cfg) 1) effs ∧
   Hls.ffmpegProc s' = Some 1) ∧
  (let '(s', effs) :=
     Hls.handle Hls.example_cfg hls_streaming (Hls.PrePublish "c2" "/live/stream") in
   s' = hls_streaming ∧ effs = [ Log Console "[NMS prePublish] /live/stream" ]).
Proof.
  split.
  - pose proof (prePublish_launches_iff Hls.example_cfg Hls.init "c1" "/input/stream") as H.
    destruct (Hls.handle Hls.example_cfg Hls.init (Hls.PrePublish "c1" "/input/stream"))
      as [s' effs].
    destruct H as (H1 & H2 & _ & H4 & _).
    assert (Hs : spawns effs = 1) by (apply H2; split; reflexivity).
    split; [apply H1; split; reflexivity | apply (H4 Hs)].
  - pose proof (prePublish_launches_iff Hls.example_cfg hls_streaming "c2" "/live/stream") as H.
    destruct (Hls.handle Hls.example_cfg hls_streaming (Hls.PrePublish "c2" "/live/stream"))
      as [s' effs].
    destruct H as (_ & _ & _ & _ & _ & H6). apply H6. discriminate.
Defined.

(** ** Unpublish *)

(** With [ffmpeg] running and a viewer connected, [donePublish] in
    [server.js] changes nothing, terminates nothing and tells the viewer
    nothing; with a publish active in [logger.js], [doneConnect] leaves it
    recorded as live and tells the viewer nothing. *)
Lemma hls_donePublish_only_logs :
  Hls.ffmpegProc hls_streaming = Some 1 ∧
  Hls.children hls_streaming = {[ 1 ]} ∧
  Hls.clients hls_streaming = {[ 5 ]} ∧
  (let '(s', effs) :=
     Hls.handle Hls.example_cfg hls_streaming (Hls.DonePublish "c1" "/input/stream") in
   s' = hls_streaming ∧ effs = [ Log Console "[NMS donePublish] /input/stream" ] ∧
   Hls.ffmpegProc s' = Some 1 ∧ kills effs = 0 ∧ emits effs = 0) ∧
  Flv.live "/live/stream" flv_streaming = true ∧
  (let '(s', effs) := Flv.handle Flv.example_cfg flv_streaming (Flv.DoneConnect "c1") in
   s' = flv_streaming ∧ effs = [ Log Stream "Client disconnected: c1" ] ∧
   Flv.live "/live/stream" s' = true ∧ emits effs = 0).
Proof. vm_compute. repeat split; reflexivity. Qed.

(** C1 (amended): in [logger.js], every [donePublish] removes the stream
    path from [activeStreams], so that its recorded liveness is false, keeps
    the viewer set, and emits [streamStatus {live: false, path}] with
    [io.emit], which reaches every connected viewer. No handler stops a
    transcoder: [doneConnect] is only logged there, and the [donePublish]
    handler of [server.js] only logs and leaves the state, the tracked
    child process included, as it was. *)
Theorem donePublish_marks_offline_and_broadcasts
    (cfgF : Flv.Config) (sF : Flv.State) (cfgH : Hls.Config) (sH : Hls.State)
    (id path : string) :
  (let '(s', effs) := Flv.handle cfgF sF (Flv.DonePublish id path) in
   Flv.live path s' = false ∧
   Flv.activeStreams s' = Flv.activeStreams sF ∖ {[ path ]} ∧
   Flv.clients s' = Flv.clients sF ∧
   effs = [ Log Stream ("Stream ended: " +:+ path);
            IoEmit "streamStatus" (Flv.streamStatus false path) ] ∧
   recipients (Flv.clients s') (IoEmit "streamStatus" (Flv.streamStatus false path))
   = Flv.clients s' ∧
   kills effs = 0) ∧
  Flv.handle cfgF sF (Flv.DoneConnect id)
  = (sF, [ Log Stream ("Client disconnected: " +:+ id) ]) ∧
  Hls.handle cfgH sH (Hls.DonePublish id path)
  = (sH, [ Log Console ("[NMS donePublish] " +:+ path) ]).
Proof.
  simpl. repeat split.
  unfold Flv.live; simpl. apply bool_decide_eq_false. set_solver.
Qed.

(** ** Exit of the transcoder *)

(** [ffmpeg] exits with code 1 while it is the tracked job: the handler
    logs and clears [ffmpegProc]; neither it nor the events that follow
    launch a process again. *)
Lemma hls_crash_is_not_restarted :
  let cfg := Hls.example_cfg in
  let '(s1, effs1) := Hls.handle cfg hls_streaming (Hls.FfmpegExit 1 (Some 1%Z) None) in
  let '(s2, effs2) :=
    run (Hls.handle cfg) s1
        [ Hls.FfmpegStderr 1 "frame=  10"; Hls.DonePublish "c1" "/input/stream";
          Hls.Connection 6; Hls.GetApiInfo ] in
  effs1 = [ Log Console (String (Ascii.ascii_of_nat 10) "[FFmpeg] Exited (1)") ] ∧
  Hls.ffmpegProc s1 = None ∧ Hls.children s1 = ∅ ∧
  Hls.ffmpegProc s2 = None ∧ Hls.children s2 = ∅ ∧
  spawns (effs1 ++ effs2) = 0.
Proof. vm_compute. repeat split; reflexivity. Qed.

Lemma hls_handle_no_input_publish cfg s e :
  is_input_publish e = false →
  spawns (Hls.handle cfg s e).2 = 0 ∧
  (Hls.ffmpegProc s = None → Hls.ffmpegProc (Hls.handle cfg s e).1 = None).
Proof.
  destruct e as [ | |id streamPath| |pid data| | | |[|]]; simpl; intros He; try done.
  - apply bool_decide_eq_false in He.
    change ("/" +:+ Hls.INPUT_APP +:+ "/" +:+ Hls.STREAM_KEY) with "/input/stream".
    by rewrite decide_False.
  - by destruct (includes "frame=" data).
Qed.

Lemma hls_run_no_input_publish cfg evs : ∀ s,
  forallb (λ e, negb (is_input_publish e)) evs = true →
  Hls.ffmpegProc s = None →
  spawns (run (Hls.handle cfg) s evs).2 = 0 ∧
  Hls.ffmpegProc (run (Hls.handle cfg) s evs).1 = None.
Proof.
  induction evs as [|e evs IH]; intros s Hall Hs; [done|].
  simpl in Hall. apply andb_true_iff in Hall as [He Hall].
  apply negb_true_iff in He.
  destruct (hls_handle_no_input_publish cfg s e He) as [Hsp Hpr].
  simpl. destruct (Hls.handle cfg s e) as [s1 effs1]. simpl in *.
  destruct (IH s1 Hall (Hpr Hs)) as [Hsp2 Hpr2].
  destruct (run (Hls.handle cfg) s1 evs) as [s2 effs2]. simpl in *.
  rewrite spawns_app. split; [lia | done].
Qed.

Lemma hls_input_publish_when_idle cfg s id :
  Hls.ffmpegProc s = None →
  spawns (Hls.handle cfg s (Hls.PrePublish id "/input/stream")).2 = 1 ∧
  is_Some (Hls.ffmpegProc (Hls.handle cfg s (Hls.PrePublish id "/input/stream")).1).
Proof.
  intros H. simpl. unfold Hls.startFFmpeg. rewrite H. simpl. eauto.
Qed.

(** C4 (amended): when the transcoding child process exits, whatever its
    exit code or signal, the exit handler of [server.js] logs the exit and
    clears [ffmpegProc], and launches nothing. There is no restart budget,
    backoff or error record: over any later sequence of events without a
    [prePublish] for ["/input/stream"] no process is launched and
    [ffmpegProc] stays clear; the next [prePublish] for ["/input/stream"]
    launches a new process. *)
Theorem ffmpeg_exit_clears_without_restart
    (cfg : Hls.Config) (s : Hls.State) (pid : Pid) (code : option Z)
    (signal : option string) (evs : list Hls.Event) (id : string) :
  forallb (λ e, negb (is_input_publish e)) evs = true →
  let '(s1, effs1) := Hls.handle cfg s (Hls.FfmpegExit pid code signal) in
  let '(s2, effs2) := run (Hls.handle cfg) s1 evs in
  let '(s3, effs3) := Hls.handle cfg s2 (Hls.PrePublish id "/input/stream") in
  effs1 = [ Log Console (String (Ascii.ascii_of_nat 10) "[FFmpeg] Exited ("
                         +:+ Hls.code_or_signal code signal +:+ ")") ] ∧
  Hls.ffmpegProc s1 = None ∧
  Hls.children s1 = Hls.children s ∖ {[ pid ]} ∧
  Hls.ffmpegProc s2 = None ∧
  spawns (effs1 ++ effs2) = 0 ∧
  spawns effs3 = 1 ∧ is_Some (Hls.ffmpegProc s3).
Proof.
  intros Hall.
  destruct (Hls.handle cfg s (Hls.FfmpegExit pid code signal)) as [s1 effs1] eqn:E1.
  simpl in E1. inversion E1; subst s1 effs1; clear E1.
  set (s1 := {| Hls.clients := Hls.clients s; Hls.ffmpegProc := None;
                Hls.children := Hls.children s ∖ {[ pid ]};
                Hls.next_pid := Hls.next_pid s |}).
  destruct (hls_run_no_input_publish cfg evs s1 Hall eq_refl) as [Hsp Hpr].
  destruct (run (Hls.handle cfg) s1 evs) as [s2 effs2]. simpl in Hsp, Hpr.
  pose proof (hls_input_publish_when_idle cfg s2 id Hpr) as H3.
  destruct (Hls.handle cfg s2 (Hls.PrePublish id "/input/stream")) as [s3 effs3].
  destruct H3 as [Hs3 Hsome].
  repeat split; done.
Qed.

Lemma ffmpeg_exit_clears_without_restart_witness :
  let cfg := Hls.example_cfg in
  let '(s1, effs1) := Hls.handle cfg hls_streaming (Hls.FfmpegExit 1 (Some 1%Z) None) in
  let '(s2, effs2) :=
    run (Hls.handle cfg) s1 [ Hls.DonePublish "c1" "/input/stream"; Hls.Connection 6 ] in
  let '(s3, effs3) := Hls.handle cfg s2 (Hls.PrePublish "c2" "/input/stream") in
  Hls.ffmpegProc s2 = None ∧ spawns (effs1 ++ effs2) = 0 ∧ spawns effs3 = 1.
Proof.
  intros cfg.
  pose proof (ffmpeg_exit_clears_without_restart cfg hls_streaming 1 (Some 1%Z) None
                [ Hls.DonePublish "c1" "/input/stream"; Hls.Connection 6 ] "c2" eq_refl) as H.
  destruct (Hls.handle cfg hls_streaming (Hls.FfmpegExit 1 (Some 1%Z) None)) as [s1 effs1].
  destruct (run (Hls.handle cfg) s1 _) as [s2 effs2].
  destruct (Hls.handle cfg s2 (Hls.PrePublish "c2" "/input/stream")) as [s3 effs3].
  destruct H as (_ & _ & _ & H4 & H5 & H6 & _). done.
Defined.

(** ** Process signals *)

(** With [ffmpeg] running, a shutdown signal ends [server.js] without
    closing the HTTP server and without terminating the child, which is
    still alive: on SIGTERM no handler runs at all, on SIGINT only the
    media server's, which exits. In [logger.js], SIGINT ends the process
    right after the HTTP server was asked to close, without stopping the
    media server. *)
Lemma hls_signal_leaves_ffmpeg_running :
  Hls.ffmpegProc hls_streaming = Some 1 ∧
  Hls.children hls_streaming = {[ 1 ]} ∧
  (let '(s', effs) :=
     Hls.handle Hls.example_cfg hls_streaming (Hls.ProcessSignal TERM) in
   effs = [ DefaultSignalExit "SIGTERM" ] ∧ kills effs = 0 ∧
   Hls.children s' = {[ 1 ]}) ∧
  (let '(s', effs) :=
     Hls.handle Hls.example_cfg hls_streaming (Hls.ProcessSignal INT) in
   effs = [ ProcessExit 0 ] ∧ kills effs = 0 ∧
   Hls.children s' = {[ 1 ]}) ∧
  (Flv.handle Flv.example_cfg flv_streaming Flv.SIGINT).2
  = [ Log Warn "SIGINT received, shutting down gracefully..."; HttpServerClose;
      ProcessExit 0 ].
Proof. vm_compute. repeat split; reflexivity. Qed.

Lemma hls_never_kills cfg s e : kills (Hls.handle cfg s e).2 = 0.
Proof.
  destruct e as [ | |id streamPath| |pid data| | | |[|]]; simpl; try done.
  - destruct (decide _); [|done]. unfold Hls.startFFmpeg.
    by destruct (Hls.ffmpegProc s).
  - by destruct (includes "frame=" data).
Qed.

Lemma flv_never_kills cfg s e : kills (Flv.handle cfg s e).2 = 0.
Proof. by destruct e. Qed.

(** C5 (amended): in [logger.js], the script handles SIGTERM and SIGINT
    alike: it logs a warning and asks the HTTP server, which carries the
    viewer notification channel, to close; when the close has completed,
    the callback logs, stops the media server and exits with status 0, in
    that order. On SIGINT the media server's own handler exits with status
    0 right after the script's, before the close has completed. No handler
    of either script ever calls [kill] on a child process. [server.js], the
    script that launches [ffmpeg], registers no signal handler: on SIGTERM
    no handler runs, on SIGINT only the media server's exit, and the state,
    the live child processes included, is what it was. *)
Theorem graceful_shutdown_sequence
    (cfgF : Flv.Config) (sF : Flv.State) (eF : Flv.Event)
    (cfgH : Hls.Config) (sH : Hls.State) (eH : Hls.Event) :
  Flv.handle cfgF sF Flv.SIGTERM
  = (sF, [ Log Warn "SIGTERM received, shutting down gracefully..."; HttpServerClose ]) ∧
  Flv.handle cfgF sF Flv.SIGINT
  = (sF, [ Log Warn "SIGINT received, shutting down gracefully..."; HttpServerClose;
           ProcessExit 0 ]) ∧
  Flv.handle cfgF sF Flv.HttpServerClosed
  = (sF, [ Log Info "HTTP server closed"; NmsStop; ProcessExit 0 ]) ∧
  kills (Flv.handle cfgF sF eF).2 = 0 ∧
  kills (Hls.handle cfgH sH eH).2 = 0 ∧
  Hls.handle cfgH sH (Hls.ProcessSignal TERM) = (sH, [ DefaultSignalExit "SIGTERM" ]) ∧
  Hls.handle cfgH sH (Hls.ProcessSignal INT) = (sH, [ ProcessExit 0 ]).
Proof.
  split_and!; try done.
  - apply flv_never_kills.
  - apply hls_never_kills.
Qed.

(** ** The HTTP query surface *)

(** [GET /api/info] of [server.js] carries neither [isLive] nor
    [viewers]. *)
Lemma hls_api_info_has_three_fields :
  keys (Hls.api_info Hls.example_cfg) = [ "ip"; "rtmpIngest"; "hls" ] ∧
  field "isLive" (Hls.api_info Hls.example_cfg) = None ∧
  field "viewers" (Hls.api_info Hls.example_cfg) = None ∧
  Hls.handle Hls.example_cfg hls_streaming Hls.GetApiInfo
  = (hls_streaming,
     [ ResJson (JObj [ ("ip", JStr "192.168.1.20");
                       ("rtmpIngest", JStr "rtmp://192.168.1.20:1935/input/stream");
                       ("hls", JStr "http://192.168.1.20:3000/live/stream.m3u8") ]) ]).
Proof. vm_compute. repeat split; reflexivity. Qed.

(** C7 (amended): in [logger.js], [GET /api/info] answers with an object of
    exactly the fields [ip], [flv] (the delivery locator), [rtmpIngest] (the
    ingest locator), [isLive] and [viewers], where [isLive] tells whether
    ["/live/stream"] is in [activeStreams] and [viewers] is the size of
    [clients]; [GET /health] answers with exactly [status], [uptime],
    [timestamp], [activeStreams] and [viewers], where [activeStreams] and
    [viewers] are the sizes of the two sets; neither request changes the
    state. In [server.js], [GET /api/info] answers with exactly [ip],
    [rtmpIngest] and [hls]. *)
Theorem query_surface_fields
    (cfgF : Flv.Config) (sF : Flv.State) (ip : string) (uptime : float) (now : string)
    (cfgH : Hls.Config) (sH : Hls.State) :
  (∃ body, Flv.handle cfgF sF (Flv.GetApiInfo ip)
           = (sF, [ Flv.request_log "/api/info" ip; ResJson body ]) ∧
     keys body = [ "ip"; "flv"; "rtmpIngest"; "isLive"; "viewers" ] ∧
     field "isLive" body = Some (JBool (bool_decide ("/live/stream" ∈ Flv.activeStreams sF))) ∧
     field "viewers" body = Some (JNum (size (Flv.clients sF)))) ∧
  (∃ body, Flv.handle cfgF sF (Flv.GetHealth ip uptime now)
           = (sF, [ Flv.request_log "/health" ip; ResJson body ]) ∧
     keys body = [ "status"; "uptime"; "timestamp"; "activeStreams"; "viewers" ] ∧
     field "status" body = Some (JStr "ok") ∧
     field "uptime" body = Some (JFloat uptime) ∧
     field "timestamp" body = Some (JStr now) ∧
     field "activeStreams" body = Some (JNum (size (Flv.activeStreams sF))) ∧
     field "viewers" body = Some (JNum (size (Flv.clients sF)))) ∧
  (∃ body, Hls.handle cfgH sH Hls.GetApiInfo = (sH, [ ResJson body ]) ∧
     keys body = [ "ip"; "rtmpIngest"; "hls" ]).
Proof.
  split; [|split].
  - eexists. split; [reflexivity|]. repeat split.
  - eexists. split; [reflexivity|]. repeat split.
  - eexists. split; reflexivity.
Qed.

(** ** The two liveness views of [logger.js] *)

(** C10: the message sent to a newly connected viewer reports
    [live = (activeStreams is not empty)] with the fixed path
    ["/live/stream"], while [GET /api/info] reports
    [isLive = ("/live/stream" is in activeStreams)]; after a publish under
    another path the two disagree: the viewer is told [live: true] and
    [/api/info] says [isLive: false]. *)
Theorem liveness_views_can_disagree (cfg : Flv.Config) (s : Flv.State) (socket : Socket) :
  (let '(s', effs) := Flv.handle cfg s (Flv.Connection socket) in
   ∃ count,
     effs = [ Log Client ("New viewer connected (Total: " +:+ pretty count +:+ ")");
              IoEmit "viewerCount" (JNum count);
              SocketEmit socket "streamStatus"
                (JObj [ ("live", JBool (bool_decide (0 < size (Flv.activeStreams s))));
                        ("path", JStr "/live/stream") ]) ]) ∧
  Flv.info_isLive cfg s = Some (JBool (bool_decide ("/live/stream" ∈ Flv.activeStreams s))) ∧
  (let s1 := fst (run (Flv.handle cfg) Flv.init [ Flv.PrePublish "c1" "/live/other" ]) in
   let '(s2, effs) := Flv.handle cfg s1 (Flv.Connection socket) in
   Flv.unicast_live s2 = Some (JBool true) ∧
   In (SocketEmit socket "streamStatus"
         (JObj [ ("live", JBool true); ("path", JStr "/live/stream") ])) effs ∧
   Flv.info_isLive cfg s2 = Some (JBool false)).
Proof.
  split; [|split].
  - simpl. eexists. reflexivity.
  - reflexivity.
  - simpl. repeat split.
    right; right; left.
    unfold Flv.unicast_status, Flv.streamStatus; simpl.
    reflexivity.
Qed.

(** ** Publish and unpublish in [logger.js] *)

Lemma flv_live_after_run cfg path evs : ∀ s,
  forallb (on_identity path) evs = true →
  Flv.live path (run (Flv.handle cfg) s evs).1
  = match last evs with
    | Some e => is_prePublish e
    | None => Flv.live path s
    end.
Proof.
  induction evs as [|e evs IH]; intros s Hall; [done|].
  simpl in Hall. apply andb_true_iff in Hall as [He Hall].
  simpl. destruct (Flv.handle cfg s e) as [s1 effs1] eqn:E1.
  specialize (IH s1 Hall).
  destruct (run (Flv.handle cfg) s1 evs) as [s2 effs2]. simpl fst in *.
  rewrite IH. destruct evs as [|e' evs'].
  2:{ rewrite last_cons_cons.
      destruct (last (e' :: evs')) eqn:El; [done | by apply last_None in El]. }
  simpl. destruct e; try done; simpl in He; apply bool_decide_eq_true in He; subst;
    inversion E1; subst; unfold Flv.live; simpl.
  - apply bool_decide_eq_true. set_solver.
  - apply bool_decide_eq_false. set_solver.
Qed.

(** C3: in [logger.js], after any finite sequence of [prePublish] and
    [donePublish] events of one identity, processed from the initial state,
    the recorded liveness of that identity is true if and only if the last
    event of the sequence is a [prePublish]; for a sequence that is not
    empty the same holds from every state. *)
Theorem live_iff_last_event_prePublish
    (cfg : Flv.Config) (path : string) (evs : list Flv.Event) :
  forallb (on_identity path) evs = true →
  (Flv.live path (run (Flv.handle cfg) Flv.init evs).1 = true
   ↔ is_prePublish <$> last evs = Some true) ∧
  (∀ s, evs ≠ [] →
        Flv.live path (run (Flv.handle cfg) s evs).1 = true
        ↔ is_prePublish <$> last evs = Some true).
Proof.
  intros Hall. split.
  - rewrite (flv_live_after_run cfg path evs Flv.init Hall).
    destruct (last evs) as [e|]; simpl.
    + split; [by intros -> | by intros [= ->]].
    + unfold Flv.live; simpl. split; [|done].
      intros H. apply bool_decide_eq_true in H. set_solver.
  - intros s Hne. rewrite (flv_live_after_run cfg path evs s Hall).
    destruct (last evs) as [e|] eqn:El; simpl.
    + split; [by intros -> | by intros [= ->]].
    + by apply last_None in El.
Qed.

Lemma live_iff_last_event_prePublish_witness :
  Flv.live "/live/stream"
    (run (Flv.handle Flv.example_cfg) Flv.init
         [ Flv.PrePublish "c1" "/live/stream"; Flv.DonePublish "c1" "/live/stream";
           Flv.PrePublish "c2" "/live/stream" ]).1 = true.
Proof.
  destruct (live_iff_last_event_prePublish Flv.example_cfg "/live/stream"
              [ Flv.PrePublish "c1" "/live/stream"; Flv.DonePublish "c1" "/live/stream";
                Flv.PrePublish "c2" "/live/stream" ] eq_refl) as [H _].
  apply H. reflexivity.
Defined.

(** ** Viewer presence *)

Section ViewerCount.
Context {St Ev : Type}.
Variable handle : St → Ev → St * list Effect.
Variable clients : St → gset Socket.
Variable viewer : ViewerEv → Ev.

Hypothesis handle_join : ∀ s socket,
  clients (handle s (viewer (Join socket))).1 = {[ socket ]} ∪ clients s ∧
  viewer_counts (handle s (viewer (Join socket))).2 = [ size ({[ socket ]} ∪ clients s) ].
Hypothesis handle_leave : ∀ s socket,
  clients (handle s (viewer (Leave socket))).1 = clients s ∖ {[ socket ]} ∧
  viewer_counts (handle s (viewer (Leave socket))).2 = [ size (clients s ∖ {[ socket ]}) ].

Lemma viewer_step s v :
  viewer_counts (handle s (viewer v)).2 = [ size (clients (handle s (viewer v)).1) ].
Proof.
  destruct v as [socket|socket].
  - destruct (handle_join s socket) as [-> ->]. done.
  - destruct (handle_leave s socket) as [-> ->]. done.
Qed.

Lemma viewer_step_size s v :
  well_formed (clients s) [ v ] = true →
  size (clients (handle s (viewer v)).1) + (if is_join v then 0 else 1)
  = size (clients s) + (if is_join v then 1 else 0).
Proof.
  destruct v as [socket|socket]; simpl; rewrite andb_true_r; intros H.
  - apply bool_decide_eq_true in H.
    destruct (handle_join s socket) as [-> _].
    rewrite size_union by set_solver. rewrite size_singleton. lia.
  - apply bool_decide_eq_true in H.
    destruct (handle_leave s socket) as [-> _].
    assert (Hsub : ({[ socket ]} : gset Socket) ⊆ clients s) by set_solver.
    rewrite (size_difference _ _ Hsub).
    apply subseteq_size in Hsub. rewrite size_singleton in *. lia.
Qed.

Lemma viewer_run evs : ∀ s,
  well_formed (clients s) evs = true →
  size (clients (run handle s (map viewer evs)).1) + leaves evs
  = size (clients s) + joins evs ∧
  length (viewer_counts (run handle s (map viewer evs)).2) = length evs ∧
  (evs ≠ [] →
   last (viewer_counts (run handle s (map viewer evs)).2)
   = Some (size (clients (run handle s (map viewer evs)).1))).
Proof.
  induction evs as [|v evs IH]; intros s Hwf; [done|].
  assert (Hv : well_formed (clients s) [ v ] = true
               ∧ well_formed (clients (handle s (viewer v)).1) evs = true).
  { destruct v as [socket|socket]; simpl in *;
      apply andb_true_iff in Hwf as [H1 H2]; rewrite H1; split; try done.
    - by destruct (handle_join s socket) as [-> _].
    - by destruct (handle_leave s socket) as [-> _]. }
  destruct Hv as [Hv Hrest].
  pose proof (viewer_step_size s v Hv) as Hsz.
  pose proof (viewer_step s v) as Hst.
  simpl. destruct (handle s (viewer v)) as [s1 effs1]. simpl in *.
  destruct (IH s1 Hrest) as (IH1 & IH2 & IH3).
  assert (Hnil : evs = [] → run handle s1 (map viewer evs) = (s1, []))
    by (by intros ->).
  destruct (run handle s1 (map viewer evs)) as [s2 effs2]. simpl in *.
  rewrite viewer_counts_app, Hst.
  split; [|split].
  - unfold joins, leaves in *. simpl. destruct (is_join v); simpl; lia.
  - simpl. by rewrite IH2.
  - intros _. destruct evs as [|v' evs'].
    + specialize (Hnil eq_refl). by inversion Hnil.
    + specialize (IH3 ltac:(done)).
      destruct (viewer_counts effs2) as [|n ns]; [done|].
      cbn [app]. by rewrite last_cons_cons.
Qed.
End ViewerCount.

Lemma hls_viewer_join cfg s socket :
  Hls.clients (Hls.handle cfg s (hls_viewer (Join socket))).1 = {[ socket ]} ∪ Hls.clients s ∧
  viewer_counts (Hls.handle cfg s (hls_viewer (Join socket))).2
  = [ size ({[ socket ]} ∪ Hls.clients s) ].
Proof. done. Qed.

Lemma hls_viewer_leave cfg s socket :
  Hls.clients (Hls.handle cfg s (hls_viewer (Leave socket))).1 = Hls.clients s ∖ {[ socket ]} ∧
  viewer_counts (Hls.handle cfg s (hls_viewer (Leave socket))).2
  = [ size (Hls.clients s ∖ {[ socket ]}) ].
Proof. done. Qed.

Lemma flv_viewer_join cfg s socket :
  Flv.clients (Flv.handle cfg s (flv_viewer (Join socket))).1 = {[ socket ]} ∪ Flv.clients s ∧
  viewer_counts (Flv.handle cfg s (flv_viewer (Join socket))).2
  = [ size ({[ socket ]} ∪ Flv.clients s) ].
Proof. done. Qed.

Lemma flv_viewer_leave cfg s socket :
  Flv.clients (Flv.handle cfg s (flv_viewer (Leave socket))).1 = Flv.clients s ∖ {[ socket ]} ∧
  viewer_counts (Flv.handle cfg s (flv_viewer (Leave socket))).2
  = [ size (Flv.clients s ∖ {[ socket ]}) ].
Proof. done. Qed.

(** C6: for every sequence of viewer connects and disconnects that
    socket.io can deliver, with N connects and M disconnects, M is at most
    N, both scripts end with N - M sockets in [clients], and when the
    sequence is not empty the last viewer count they broadcast is N - M.
    Every single connect or disconnect emits one [viewerCount] with
    [io.emit], carrying the size of [clients] after the update and reaching
    every connected socket. *)
Theorem viewer_count_is_connects_minus_disconnects
    (cfgH : Hls.Config) (cfgF : Flv.Config) (evs : list ViewerEv) :
  well_formed ∅ evs = true →
  leaves evs ≤ joins evs ∧
  (let '(s, effs) := run (Hls.handle cfgH) Hls.init (map hls_viewer evs) in
   size (Hls.clients s) = joins evs - leaves evs ∧
   length (viewer_counts effs) = length evs ∧
   (evs ≠ [] → last (viewer_counts effs) = Some (joins evs - leaves evs))) ∧
  (let '(s, effs) := run (Flv.handle cfgF) Flv.init (map flv_viewer evs) in
   size (Flv.clients s) = joins evs - leaves evs ∧
   length (viewer_counts effs) = length evs ∧
   (evs ≠ [] → last (viewer_counts effs) = Some (joins evs - leaves evs))) ∧
  (∀ sH v,
     let '(s', effs) := Hls.handle cfgH sH (hls_viewer v) in
     let emitted := IoEmit "viewerCount" (JNum (size (Hls.clients s'))) in
     In emitted effs ∧ viewer_counts effs = [ size (Hls.clients s') ] ∧
     recipients (Hls.clients s') emitted = Hls.clients s') ∧
  (∀ sF v,
     let '(s', effs) := Flv.handle cfgF sF (flv_viewer v) in
     let emitted := IoEmit "viewerCount" (JNum (size (Flv.clients s'))) in
     In emitted effs ∧ viewer_counts effs = [ size (Flv.clients s') ] ∧
     recipients (Flv.clients s') emitted = Flv.clients s').
Proof.
  intros Hwf.
  pose proof (viewer_run (Hls.handle cfgH) Hls.clients hls_viewer
                (hls_viewer_join cfgH) (hls_viewer_leave cfgH) evs Hls.init Hwf)
    as (HH1 & HH2 & HH3).
  pose proof (viewer_run (Flv.handle cfgF) Flv.clients flv_viewer
                (flv_viewer_join cfgF) (flv_viewer_leave cfgF) evs Flv.init Hwf)
    as (HF1 & HF2 & HF3).
  destruct (run (Hls.handle cfgH) Hls.init (map hls_viewer evs)) as [sH effsH].
  destruct (run (Flv.handle cfgF) Flv.init (map flv_viewer evs)) as [sF effsF].
  simpl fst in *. simpl snd in *.
  change (Hls.clients Hls.init) with (∅ : gset Socket) in HH1.
  change (Flv.clients Flv.init) with (∅ : gset Socket) in HF1.
  rewrite size_empty in HH1, HF1.
  split; [lia|]. split; [|split; [|split]].
  - split; [lia|]. split; [done|]. intros Hne. rewrite (HH3 Hne). f_equal. lia.
  - split; [lia|]. split; [done|]. intros Hne. rewrite (HF3 Hne). f_equal. lia.
  - intros s [socket|socket]; simpl; repeat split; by left.
  - intros s [socket|socket]; simpl; repeat split; by (right; left).
Qed.

Lemma viewer_count_is_connects_minus_disconnects_witness :
  let evs := [ Join 1; Join 2; Leave 1; Join 3 ] in
  let '(s, effs) := run (Flv.handle Flv.example_cfg) Flv.init (map flv_viewer evs) in
  size (Flv.clients s) = 2 ∧ last (viewer_counts effs) = Some 2.
Proof.
  intros evs.
  pose proof (viewer_count_is_connects_minus_disconnects
                Hls.example_cfg Flv.example_cfg evs eq_refl) as (_ & _ & H & _).
  destruct (run (Flv.handle Flv.example_cfg) Flv.init (map flv_viewer evs)) as [s effs].
  destruct H as (H1 & _ & H3). split; [exact H1|]. apply H3. discriminate.
Defined.

(** Three viewers connecting in sequence are told the counts 1, 2, 3. *)
Example three_viewers_in_sequence :
  viewer_counts (run (Hls.handle Hls.example_cfg) Hls.init
                     (map hls_viewer [ Join 1; Join 2; Join 3 ])).2 = [ 1; 2; 3 ] ∧
  viewer_counts (run (Flv.handle Flv.example_cfg) Flv.init
                     (map flv_viewer [ Join 1; Join 2; Join 3 ])).2 = [ 1; 2; 3 ].
Proof. vm_compute. split; reflexivity. Qed.

(** ** The viewer page and an idle server *)

Lemma consume_descriptors_come_from_producers producers rtpCapabilities cs c :
  Client.consumers (Negotiation.consume producers rtpCapabilities) = Some cs →
  c ∈ cs →
  ∃ p, p ∈ producers ∧ Client.producerId c = Negotiation.p_id p.
Proof.
  unfold Negotiation.consume; simpl. intros [= <-] Hc.
  apply list_elem_of_fmap in Hc as (p & -> & Hp).
  apply list_elem_of_filter in Hp as [_ Hp]. eauto.
Qed.

(** C8: with no producer, the server's [consume] returns an empty consumer
    list, and every descriptor it ever returns belongs to an existing
    producer. When the page has reached the [consume] step and the
    acknowledgement carries an empty (or no) consumer list, [init] creates
    no consumer, warns, and schedules [init] itself, the whole negotiation,
    to run again after 1000 ms; that is the only timer it sets. *)
Theorem empty_consumer_list_is_retried
    (w : Client.World) (info : Client.Info) (routerCaps deviceCaps : list string)
    (t : Client.TransportInfo) (resp : Client.ConsumeResp)
    (producers : list Negotiation.Producer) :
  Client.fetch_info w = inr info →
  Client.ack_getRouterRtpCapabilities w = Some routerCaps →
  Client.device_load w routerCaps = inr deviceCaps →
  Client.ack_createTransport w = Some t →
  Client.ack_consume w = Some resp →
  resp = Negotiation.consume [] deviceCaps
  ∨ Client.consumers resp = None ∨ Client.consumers resp = Some [] →
  Negotiation.consume [] deviceCaps = {| Client.consumers := Some [] |} ∧
  (∀ cs c, Client.consumers (Negotiation.consume producers deviceCaps) = Some cs →
           c ∈ cs → ∃ p, p ∈ producers ∧ Client.producerId c = Negotiation.p_id p) ∧
  ∃ before,
    Client.init w
    = before ++ [ Client.Emit "consume" (Some deviceCaps);
                  Client.ConsoleWarn "No consumers available yet. Retrying in 1s...";
                  Client.SetTimeout Client.Init 1000 ] ∧
    forallb (λ a, negb (Client.is_consume a)) (Client.init w) = true ∧
    forallb (λ a, negb (is_timer a)) before = true.
Proof.
  intros Hf Hr Hd Ht Hc Hresp.
  split; [done|]. split.
  { intros cs c. apply consume_descriptors_come_from_producers. }
  assert (Hempty : Client.consumers resp = None ∨ Client.consumers resp = Some []).
  { destruct Hresp as [-> | H]; [by right | done]. }
  unfold Client.init, Client.init_when, Client.negotiate, Client.request, Client.await,
    Client.when.
  rewrite Hf, Hr, Ht, Hc. simpl. rewrite Hd. simpl.
  destruct (Client.has_ipEl w), (Client.has_macEl w);
    destruct Hempty as [-> | ->]; simpl;
    match goal with
    | |- ∃ before, ?l = _ ∧ _ => exists (take (length l - 3) l)
    end; (split; [ reflexivity | done ]).
Qed.

Lemma empty_consumer_list_is_retried_witness :
  ∃ before,
    Client.init idle_world
    = before ++ [ Client.Emit "consume" (Some [ "video/H264"; "audio/opus" ]);
                  Client.ConsoleWarn "No consumers available yet. Retrying in 1s...";
                  Client.SetTimeout Client.Init 1000 ].
Proof.
  destruct (empty_consumer_list_is_retried idle_world
              {| Client.ip := Some "10.0.0.5"; Client.mac := None |}
              [ "video/H264"; "audio/opus" ] [ "video/H264"; "audio/opus" ]
              {| Client.t_id := "t1"; Client.iceParameters := "ice";
                 Client.iceCandidates := "cand"; Client.dtlsParameters := "dtls" |}
              (Negotiation.consume [] [ "video/H264"; "audio/opus" ]) []
              eq_refl eq_refl eq_refl eq_refl eq_refl (or_introl eq_refl))
    as (_ & _ & before & H & _).
  exists before. exact H.
Defined.

(** * Further properties of the scripts *)

(** ** Address detection *)

Lemma first_external_find nis :
  first_external nis = address <$> List.find external_ipv4 nis.
Proof.
  induction nis as [|ni nis IH]; [done|].
  simpl. unfold external_ipv4 at 1.
  by destruct (bool_decide (family ni = "IPv4") && negb (internal ni)).
Qed.

Lemma find_app_first {A} (f : A → bool) (l1 l2 : list A) :
  List.find f (l1 ++ l2)
  = match List.find f l1 with Some x => Some x | None => List.find f l2 end.
Proof. induction l1 as [|x l1 IH]; [done|]. simpl. by destruct (f x). Qed.

Lemma first_address_find entries :
  first_address entries = address <$> List.find external_ipv4 (concat (map snd entries)).
Proof.
  induction entries as [|[name nis] entries IH]; [done|].
  simpl. rewrite find_app_first, first_external_find, IH.
  by destruct (List.find external_ipv4 nis).
Qed.

Lemma elem_of_insert_index {A} (n : N) (x : A) l p :
  p ∈ insert_index n x l ↔ p = (n, x) ∨ p ∈ l.
Proof.
  induction l as [|[m y] l IH]; simpl.
  - set_solver.
  - destruct (n <? m)%N; [set_solver|]. rewrite !elem_of_cons, IH. tauto.
Qed.

Lemma elem_of_indexed {A} (properties : list (string * A)) n x :
  (n, x) ∈ indexed properties ↔ x ∈ properties ∧ array_index x.1 = Some n.
Proof.
  induction properties as [|[name v] properties IH]; simpl.
  - set_solver.
  - destruct (array_index name) as [m|] eqn:E.
    + rewrite elem_of_insert_index, elem_of_cons, IH. split.
      * intros [[= -> ->] | [H1 H2]]; [by split; [left|] | by split; [right|]].
      * intros [[-> | H1] H2]; [left; simpl in H2; congruence | by right].
    + rewrite IH, elem_of_cons. split; [intros [H1 H2]; by split; [right|]|].
      intros [[-> | H1] H2]; [simpl in H2; congruence | done].
Qed.

Lemma elem_of_object_entries {A} (properties : list (string * A)) x :
  x ∈ object_entries properties ↔ x ∈ properties.
Proof.
  unfold object_entries. rewrite elem_of_app, list_elem_of_fmap. split.
  - intros [([n y] & -> & H) | H].
    + by apply elem_of_indexed in H as [H _].
    + apply list_elem_of_In, List.filter_In in H as [H _]. by apply list_elem_of_In.
  - intros H. destruct (array_index x.1) as [n|] eqn:E.
    + left. exists (n, x). split; [done|]. by apply elem_of_indexed.
    + right. apply list_elem_of_In, List.filter_In. split; [by apply list_elem_of_In|].
      unfold named. by rewrite E.
Qed.

Lemma object_entries_named {A} (properties : list (string * A)) :
  forallb named properties = true → object_entries properties = properties.
Proof.
  unfold object_entries. intros H.
  assert (H1 : indexed properties = []).
  { induction properties as [|[name v] properties IH]; [done|].
    simpl in *. apply andb_true_iff in H as [Hn H]. unfold named in Hn. simpl in Hn.
    destruct (array_index name); [done | by apply IH]. }
  assert (H2 : List.filter named properties = properties).
  { induction properties as [|[name v] properties IH]; [done|].
    simpl in *. apply andb_true_iff in H as [Hn H]. rewrite Hn. f_equal.
    apply IH; [done|]. unfold named in Hn. simpl in Hn.
    by destruct (array_index name). }
  by rewrite H1, H2.
Qed.

(** X1: [getLocalIP] returns the address of the first interface, in the
    order [Object.keys] enumerates the object that [os.networkInterfaces()]
    returned, that is IPv4 and not internal, and ["127.0.0.1"] when there
    is none. That order is the one in which the interfaces were added when
    no interface name is an array index. The result is always either the
    loopback address or the address of a listed external IPv4 interface.
    The function of [logger.js] returns the same address, and the loopback
    address when the enumeration throws. *)
Theorem getLocalIP_is_first_external_ipv4 (nets : list (string * list NetIf)) :
  getLocalIP nets
  = match List.find external_ipv4 (concat (map snd (object_entries nets))) with
    | Some ni => address ni
    | None => "127.0.0.1"
    end ∧
  (∀ entry, entry ∈ object_entries nets ↔ entry ∈ nets) ∧
  (forallb named nets = true → object_entries nets = nets) ∧
  (getLocalIP nets = "127.0.0.1"
   ∨ ∃ name nis ni, (name, nis) ∈ nets ∧ ni ∈ nis ∧ external_ipv4 ni = true
                    ∧ getLocalIP nets = address ni) ∧
  (Flv.getLocalIP (Some nets)).1 = getLocalIP nets ∧
  (Flv.getLocalIP None).1 = "127.0.0.1".
Proof.
  assert (Hfind : getLocalIP nets
            = match List.find external_ipv4 (concat (map snd (object_entries nets))) with
              | Some ni => address ni
              | None => "127.0.0.1"
              end).
  { unfold getLocalIP. rewrite first_address_find.
    by destruct (List.find external_ipv4 _). }
  split_and!; try done.
  - apply elem_of_object_entries.
  - apply object_entries_named.
  - rewrite Hfind.
    destruct (List.find external_ipv4 (concat (map snd (object_entries nets))))
      as [ni|] eqn:E; [|by left].
    right. apply List.find_some in E as [Hin Hext].
    apply in_concat in Hin as (nis & Hnis & Hni).
    apply in_map_iff in Hnis as ([name nis'] & <- & Hentry).
    exists name, nis', ni. split_and!; try done.
    + by apply elem_of_object_entries, list_elem_of_In.
    + by apply list_elem_of_In.
  - unfold Flv.getLocalIP, getLocalIP. by destruct (first_address _).
Qed.

Lemma getLocalIP_is_first_external_ipv4_witness :
  object_entries (Hls.nets Hls.example_cfg) = Hls.nets Hls.example_cfg.
Proof.
  destruct (getLocalIP_is_first_external_ipv4 (Hls.nets Hls.example_cfg))
    as (_ & _ & H & _).
  apply H. reflexivity.
Defined.

(** An interface whose name is a numeral is enumerated before the others,
    whenever it was added. *)
Example getLocalIP_numeric_name_first :
  getLocalIP
    [ ("eth0", [ {| family := "IPv4"; internal := false; address := "10.0.0.1" |} ]);
      ("1", [ {| family := "IPv4"; internal := false; address := "10.0.0.2" |} ]) ]
  = "10.0.0.2".
Proof. reflexivity. Qed.

(** ** Diagnostic output of the transcoder *)

Lemma prefix_spec p s : String.prefix p s = true ↔ ∃ post, s = p +:+ post.
Proof.
  revert s. induction p as [|a p IH]; intros s.
  - destruct s; simpl; (split; [intros _; by eexists | done]).
  - destruct s as [|b s]; simpl; [split; [done | by intros [post H]]|].
    destruct (Ascii.ascii_dec a b) as [->|Hne].
    + rewrite IH. split; intros [post H]; exists post; [by rewrite H | by inversion H].
    + split; [done|]. intros [post H]. inversion H. done.
Qed.

Lemma includes_spec needle s :
  includes needle s = true ↔ ∃ pre post, s = pre +:+ needle +:+ post.
Proof.
  induction s as [|b s IH].
  - cbn [includes]. rewrite orb_false_r, prefix_spec. split.
    + intros [post H]. by exists "", post.
    + intros (pre & post & H). destruct pre; [by exists post|done].
  - cbn [includes]. rewrite orb_true_iff, prefix_spec, IH. split.
    + intros [[post H] | (pre & post & H)].
      * by exists "", post.
      * exists (String b pre), post. simpl. by rewrite H.
    + intros (pre & post & H). destruct pre as [|a pre].
      * left. by exists post.
      * right. exists pre, post. by inversion H.
Qed.

(** X2: the [stderr] handler of the transcoder prints one dot exactly when the
    chunk contains ["frame="] somewhere, prints nothing otherwise, and
    never touches the state. *)
Theorem stderr_dot_iff_frame_marker
    (cfg : Hls.Config) (s : Hls.State) (pid : Pid) (data : string) :
  (Hls.handle cfg s (Hls.FfmpegStderr pid data)).1 = s ∧
  ((Hls.handle cfg s (Hls.FfmpegStderr pid data)).2 = [ StdoutWrite "." ]
   ↔ ∃ pre post, data = pre +:+ "frame=" +:+ post) ∧
  ((Hls.handle cfg s (Hls.FfmpegStderr pid data)).2 = []
   ↔ ¬ ∃ pre post, data = pre +:+ "frame=" +:+ post).
Proof.
  simpl. rewrite <- includes_spec.
  destruct (includes "frame=" data); repeat split; done.
Qed.

(** ** Runs of [server.js] *)

Lemma live_exits_cons cfg s e evs :
  live_exits cfg s (e :: evs) = true →
  exit_of_live_child s e ∧ live_exits cfg (Hls.handle cfg s e).1 evs = true.
Proof.
  cbn [live_exits]. intros H. apply andb_true_iff in H as [H1 H2]. split; [|done].
  destruct e; try done. by apply bool_decide_eq_true in H1.
Qed.

Lemma hls_run_tracked cfg evs : ∀ s,
  live_exits cfg s evs = true → Hls.tracked cfg s →
  Hls.tracked cfg (run (Hls.handle cfg) s evs).1.
Proof.
  induction evs as [|e evs IH]; intros s Hex Ht; [done|].
  apply live_exits_cons in Hex as [He Hex].
  pose proof (hls_handle_tracked cfg s e He Ht) as H1.
  specialize (IH _ Hex H1). cbn [run].
  destruct (Hls.handle cfg s e) as [s1 effs1]. cbn [fst] in IH.
  by destruct (run (Hls.handle cfg) s1 evs).
Qed.

(** X3: over every run of [server.js] from its initial state in which the
    operating system reports only exits of live children, at most one
    [ffmpeg] is alive at the end, a child that is alive is the tracked one,
    and one is alive exactly when [ffmpegProc] holds an object whose launch
    succeeded. *)
Theorem at_most_one_ffmpeg_alive (cfg : Hls.Config) (evs : list Hls.Event) :
  live_exits cfg Hls.init evs = true →
  let s := (run (Hls.handle cfg) Hls.init evs).1 in
  Hls.tracked cfg s ∧
  size (Hls.children s) ≤ 1 ∧
  (∀ pid, pid ∈ Hls.children s → Hls.ffmpegProc s = Some pid) ∧
  (size (Hls.children s) = 1
   ↔ ∃ pid, Hls.ffmpegProc s = Some pid ∧ is_Some (Hls.spawn_pid cfg pid)).
Proof.
  intros Hex s.
  assert (Ht : Hls.tracked cfg s) by (by apply hls_run_tracked).
  split; [done|]. pose proof (tracked_size cfg s Ht) as Hsz.
  unfold Hls.tracked in Ht.
  destruct (Hls.ffmpegProc s) as [pid|]; [destruct (Hls.spawn_pid cfg pid) eqn:E|];
    rewrite Hsz, Ht; (split; [lia|]); (split; [set_solver|]).
  - split; [|done]. intros _. exists pid. rewrite E. eauto.
  - split; [lia|]. intros (pid' & [= <-] & [n Hn]). congruence.
  - split; [lia|]. by intros (pid' & [=] & _).
Qed.

Lemma at_most_one_ffmpeg_alive_witness :
  size (Hls.children
          (run (Hls.handle Hls.example_cfg) Hls.init
               [ Hls.PrePublish "c1" "/input/stream"; Hls.PrePublish "c2" "/input/stream";
                 Hls.FfmpegExit 1 (Some 1%Z) None; Hls.PrePublish "c3" "/input/stream" ]).1)
  ≤ 1.
Proof.
  apply (at_most_one_ffmpeg_alive Hls.example_cfg
           [ Hls.PrePublish "c1" "/input/stream"; Hls.PrePublish "c2" "/input/stream";
             Hls.FfmpegExit 1 (Some 1%Z) None; Hls.PrePublish "c3" "/input/stream" ]
           eq_refl).
Defined.

Lemma hls_step_stuck cfg s e pid :
  Hls.ffmpegProc s = Some pid → Hls.children s = ∅ → live_exits cfg s [ e ] = true →
  Hls.ffmpegProc (Hls.handle cfg s e).1 = Some pid ∧
  Hls.children (Hls.handle cfg s e).1 = ∅ ∧
  spawns (Hls.handle cfg s e).2 = 0.
Proof.
  intros Hp Hc Hex. unfold spawns.
  destruct e as [ | |id streamPath| |p data|p code signal| | |[|]]; simpl; try done.
  - destruct (decide _); [|done]. unfold Hls.startFFmpeg. by rewrite Hp.
  - by destruct (includes "frame=" data).
  - simpl in Hex. rewrite andb_true_r in Hex. apply bool_decide_eq_true in Hex.
    rewrite Hc in Hex. set_solver.
Qed.

(** X18: a launch that fails is never made up for. When [ffmpegProc] holds
    an object whose launch failed, so that no child is alive, then over
    every later sequence of events in which only exits of live children
    are reported, [ffmpegProc] keeps holding that object, no child is ever
    alive and nothing is launched, however many times a publisher starts
    publishing on ["/input/stream"]. *)
Theorem failed_launch_is_never_retried
    (cfg : Hls.Config) (s : Hls.State) (pid : Pid) (evs : list Hls.Event) :
  Hls.ffmpegProc s = Some pid → Hls.children s = ∅ →
  live_exits cfg s evs = true →
  let '(s', effs) := run (Hls.handle cfg) s evs in
  Hls.ffmpegProc s' = Some pid ∧ Hls.children s' = ∅ ∧ spawns effs = 0.
Proof.
  revert s. induction evs as [|e evs IH]; intros s Hp Hc Hex; [done|].
  assert (He : live_exits cfg s [ e ] = true).
  { cbn [live_exits] in *. apply andb_true_iff in Hex as [-> _]. done. }
  apply live_exits_cons in Hex as [_ Hex].
  destruct (hls_step_stuck cfg s e pid Hp Hc He) as (H1 & H2 & H3).
  cbn [run]. destruct (Hls.handle cfg s e) as [s1 effs1]. cbn [fst snd] in *.
  specialize (IH s1 H1 H2 Hex).
  destruct (run (Hls.handle cfg) s1 evs) as [s2 effs2].
  destruct IH as (I1 & I2 & I3). rewrite spawns_app. split_and!; [done..|lia].
Qed.

Lemma failed_launch_is_never_retried_witness :
  let '(s, _) :=
    Hls.handle Hls.no_ffmpeg_cfg Hls.init (Hls.PrePublish "c1" "/input/stream") in
  let '(s', effs) :=
    run (Hls.handle Hls.no_ffmpeg_cfg) s
        [ Hls.DonePublish "c1" "/input/stream"; Hls.PrePublish "c2" "/input/stream" ] in
  Hls.ffmpegProc s' = Some 1 ∧ Hls.children s' = ∅ ∧ spawns effs = 0.
Proof.
  exact (failed_launch_is_never_retried Hls.no_ffmpeg_cfg
           (Hls.handle Hls.no_ffmpeg_cfg Hls.init (Hls.PrePublish "c1" "/input/stream")).1
           1 [ Hls.DonePublish "c1" "/input/stream"; Hls.PrePublish "c2" "/input/stream" ]
           eq_refl eq_refl eq_refl).
Defined.

Lemma hls_step_launch_bounds cfg s e :
  spawns (Hls.handle cfg s e).2 ≤ (if is_input_publish e then 1 else 0) ∧
  spawns (Hls.handle cfg s e).2 + idle (Hls.handle cfg s e).1
  ≤ (if is_exit e then 1 else 0) + idle s.
Proof.
  unfold idle, spawns.
  destruct e as [ | |id streamPath| |pid data| | | |[|]]; simpl;
    try (destruct (Hls.ffmpegProc s); simpl; lia).
  - change ("/" +:+ Hls.INPUT_APP +:+ "/" +:+ Hls.STREAM_KEY) with "/input/stream".
    destruct (decide (streamPath = "/input/stream")) as [->|Hne].
    + unfold Hls.startFFmpeg. destruct (Hls.ffmpegProc s) eqn:E; simpl.
      * rewrite E. lia.
      * lia.
    + rewrite bool_decide_eq_false_2 by done.
      simpl. destruct (Hls.ffmpegProc s); lia.
  - destruct (includes "frame=" data); simpl; destruct (Hls.ffmpegProc s); lia.
Qed.

(** X4: in every run of [server.js], from any state, the number of [ffmpeg]
    launches is at most the number of [prePublish] events for
    ["/input/stream"], and at most the number of exits reported, plus one
    if no process was tracked at the start: there are never two launches
    without an exit in between. No run ever terminates a child process. *)
Theorem launches_are_bounded (cfg : Hls.Config) (s : Hls.State) (evs : list Hls.Event) :
  let '(s', effs) := run (Hls.handle cfg) s evs in
  spawns effs ≤ length (List.filter is_input_publish evs) ∧
  spawns effs + idle s' ≤ length (List.filter is_exit evs) + idle s ∧
  kills effs = 0.
Proof.
  revert s. induction evs as [|e evs IH]; intros s.
  - simpl. unfold spawns, kills; simpl. lia.
  - simpl. pose proof (hls_step_launch_bounds cfg s e) as [H1 H2].
    pose proof (hls_never_kills cfg s e) as Hk.
    destruct (Hls.handle cfg s e) as [s1 effs1]. simpl in H1, H2, Hk.
    specialize (IH s1). destruct (run (Hls.handle cfg) s1 evs) as [s2 effs2].
    destruct IH as (IH1 & IH2 & IH3).
    rewrite spawns_app. unfold kills in *. rewrite List.filter_app, length_app.
    destruct (is_input_publish e), (is_exit e); simpl; lia.
Qed.

(** ** Which handler owns which variable *)

(** X5: in both scripts the viewer set changes only on a connection or a
    disconnect, and those two events change nothing else; in [logger.js]
    the set of active streams changes only on [prePublish] and
    [donePublish]; in [server.js] the tracked transcoder changes only on a
    [prePublish] for ["/input/stream"] and on the exit of the child. HTTP
    requests, signals and all other notifications leave the state as it
    is. *)
Theorem handlers_own_disjoint_state
    (cfgH : Hls.Config) (sH : Hls.State) (eH : Hls.Event)
    (cfgF : Flv.Config) (sF : Flv.State) (eF : Flv.Event) :
  (hls_is_viewer eH = false → Hls.clients (Hls.handle cfgH sH eH).1 = Hls.clients sH) ∧
  (hls_is_viewer eH = true →
   Hls.ffmpegProc (Hls.handle cfgH sH eH).1 = Hls.ffmpegProc sH ∧
   Hls.children (Hls.handle cfgH sH eH).1 = Hls.children sH) ∧
  (is_input_publish eH = false → is_exit eH = false →
   Hls.ffmpegProc (Hls.handle cfgH sH eH).1 = Hls.ffmpegProc sH ∧
   Hls.children (Hls.handle cfgH sH eH).1 = Hls.children sH) ∧
  (hls_is_viewer eH = false → is_input_publish eH = false → is_exit eH = false →
   (Hls.handle cfgH sH eH).1 = sH) ∧
  (flv_is_viewer eF = false → Flv.clients (Flv.handle cfgF sF eF).1 = Flv.clients sF) ∧
  (flv_is_publish eF = false →
   Flv.activeStreams (Flv.handle cfgF sF eF).1 = Flv.activeStreams sF) ∧
  (flv_is_viewer eF = false → flv_is_publish eF = false → (Flv.handle cfgF sF eF).1 = sF).
Proof.
  assert (Hpub : ∀ id streamPath,
            is_input_publish (Hls.PrePublish id streamPath) = false →
            Hls.handle cfgH sH (Hls.PrePublish id streamPath)
            = (sH, [ Log Console ("[NMS prePublish] " +:+ streamPath) ])).
  { intros id streamPath H. apply bool_decide_eq_false in H. simpl.
    change ("/" +:+ Hls.INPUT_APP +:+ "/" +:+ Hls.STREAM_KEY) with "/input/stream".
    by rewrite decide_False. }
  split_and!.
  - destruct eH as [ | |id streamPath| | | | | |[|]]; try done. intros _. simpl.
    destruct (decide _); [|done]. unfold Hls.startFFmpeg.
    by destruct (Hls.ffmpegProc sH).
  - by destruct eH as [ | | | | | | | |[|]].
  - destruct eH as [ | |id streamPath| | | | | |[|]]; try done.
    intros H _. by rewrite (Hpub id streamPath H).
  - destruct eH as [ | |id streamPath| | | | | |[|]]; try done.
    intros _ H _. by rewrite (Hpub id streamPath H).
  - by destruct eF.
  - by destruct eF.
  - destruct eF; try done; intros _ _; simpl; by destruct sF.
Qed.

Lemma handlers_own_disjoint_state_witness :
  Hls.clients (Hls.handle Hls.example_cfg hls_streaming
                 (Hls.FfmpegExit 1 (Some 1%Z) None)).1 = Hls.clients hls_streaming ∧
  (Flv.handle Flv.example_cfg flv_streaming (Flv.GetApiInfo "10.0.0.9")).1 = flv_streaming.
Proof.
  pose proof (handlers_own_disjoint_state
                Hls.example_cfg hls_streaming (Hls.FfmpegExit 1 (Some 1%Z) None)
                Flv.example_cfg flv_streaming (Flv.GetApiInfo "10.0.0.9"))
    as (H1 & _ & _ & _ & _ & _ & H7).
  split; [exact (H1 eq_refl) | exact (H7 eq_refl eq_refl)].
Defined.

(** ** Liveness in [logger.js] *)

Lemma flv_live_step cfg path s e :
  Flv.live path (Flv.handle cfg s e).1 = default (Flv.live path s) (publish_of path e).
Proof.
  unfold Flv.live.
  destruct e; simpl; try done; destruct (decide (StreamPath = path)) as [->|Hne]; simpl.
  - apply bool_decide_eq_true. set_solver.
  - apply bool_decide_ext. set_solver.
  - apply bool_decide_eq_false. set_solver.
  - apply bool_decide_ext. set_solver.
Qed.

(** X6: whatever else happens in between (publishes of other paths, viewers,
    requests, signals), after any sequence of events from any state the
    recorded liveness of a path is that of the most recent [prePublish] or
    [donePublish] of that very path, and it is what it was if the sequence
    has none. *)
Theorem live_follows_last_publish_of_path
    (cfg : Flv.Config) (path : string) (s : Flv.State) (evs : list Flv.Event) :
  Flv.live path (run (Flv.handle cfg) s evs).1
  = default (Flv.live path s) (last_publish path evs).
Proof.
  revert s. induction evs as [|e evs IH]; intros s; [done|].
  cbn [run last_publish]. pose proof (flv_live_step cfg path s e) as Hstep.
  destruct (Flv.handle cfg s e) as [s1 effs1]. cbn [fst] in Hstep.
  specialize (IH s1). destruct (run (Flv.handle cfg) s1 evs) as [s2 effs2].
  cbn [fst] in *. rewrite IH. destruct (last_publish path evs); [done|].
  simpl. exact Hstep.
Qed.

Lemma flv_status_step cfg path s e :
  statuses path (Flv.handle cfg s e).2 = option_list (publish_of path e).
Proof.
  unfold statuses.
  destruct e; simpl; try done; destruct (decide (StreamPath = path)); done.
Qed.

(** X17: what the viewers were last told about a path by broadcast is its
    recorded liveness: after any sequence of events from any state, the
    liveness of a path is the [live] flag of the most recent [streamStatus]
    broadcast for it, and what it was at the start if there was none. *)
Theorem live_is_last_broadcast_status
    (cfg : Flv.Config) (path : string) (s : Flv.State) (evs : list Flv.Event) :
  let '(s', effs) := run (Flv.handle cfg) s evs in
  Flv.live path s' = default (Flv.live path s) (last (statuses path effs)).
Proof.
  revert s. induction evs as [|e evs IH]; intros s; [done|].
  cbn [run]. pose proof (flv_live_step cfg path s e) as Hlive.
  pose proof (flv_status_step cfg path s e) as Hst.
  destruct (Flv.handle cfg s e) as [s1 effs1]. cbn [fst snd] in *.
  specialize (IH s1). destruct (run (Flv.handle cfg) s1 evs) as [s2 effs2].
  unfold statuses in *. rewrite omap_app, last_app, IH.
  destruct (last (omap (status_of path) effs2)); [done|].
  rewrite Hlive, Hst. by destruct (publish_of path e).
Qed.

(** X7: the two liveness views disagree in one direction only: whenever
    [GET /api/info] reports [isLive: true], a viewer connecting at that
    moment is told [live: true]; and a new viewer is told [live: true]
    exactly when some path, whichever, is active. *)
Theorem isLive_implies_unicast_live (cfg : Flv.Config) (s : Flv.State) :
  (Flv.info_isLive cfg s = Some (JBool true) → Flv.unicast_live s = Some (JBool true)) ∧
  (Flv.unicast_live s = Some (JBool true) ↔ ∃ path, path ∈ Flv.activeStreams s) ∧
  (Flv.unicast_live s = Some (JBool false) ↔ Flv.activeStreams s = ∅).
Proof.
  assert (Hsize : 0 < size (Flv.activeStreams s) ↔ ∃ path, path ∈ Flv.activeStreams s).
  { split; [apply size_pos_elem_of|].
    intros [path Hin]. destruct (size (Flv.activeStreams s)) eqn:E; [|lia].
    apply size_empty_inv in E. set_solver. }
  unfold Flv.info_isLive, Flv.unicast_live, Flv.unicast_status, Flv.streamStatus. simpl.
  change ("/" +:+ Flv.APP_NAME +:+ "/" +:+ Flv.STREAM_KEY) with "/live/stream".
  split; [|split].
  - intros [= H]. apply bool_decide_eq_true in H.
    do 2 f_equal. apply bool_decide_eq_true. apply Hsize. eauto.
  - rewrite <- Hsize. split.
    + intros [= H]. by apply bool_decide_eq_true in H.
    + intros H. do 2 f_equal. by apply bool_decide_eq_true.
  - split.
    + intros [= H]. apply bool_decide_eq_false in H.
      apply leibniz_equiv_iff, size_empty_inv. lia.
    + intros ->. done.
Qed.

Lemma isLive_implies_unicast_live_witness :
  Flv.unicast_live flv_streaming = Some (JBool true).
Proof.
  destruct (isLive_implies_unicast_live Flv.example_cfg flv_streaming) as [H _].
  apply H. reflexivity.
Defined.

(** X8: a [prePublish] of a path that is already active and a [donePublish] of
    a path that is not leave the state as it is, yet still tell every
    viewer [live: true], respectively [live: false]. The number of active
    streams that [GET /health] reports counts distinct paths: it grows by
    one on a [prePublish] of a new path and shrinks by one on a
    [donePublish] of an active one. *)
Theorem repeated_publish_and_stray_unpublish
    (cfg : Flv.Config) (s : Flv.State) (id path : string) :
  (path ∈ Flv.activeStreams s →
   Flv.handle cfg s (Flv.PrePublish id path)
   = (s, [ Log Stream ("Stream publishing started: " +:+ path);
           IoEmit "streamStatus" (Flv.streamStatus true path) ]) ∧
   size (Flv.activeStreams (Flv.handle cfg s (Flv.DonePublish id path)).1) + 1
   = size (Flv.activeStreams s)) ∧
  (path ∉ Flv.activeStreams s →
   Flv.handle cfg s (Flv.DonePublish id path)
   = (s, [ Log Stream ("Stream ended: " +:+ path);
           IoEmit "streamStatus" (Flv.streamStatus false path) ]) ∧
   size (Flv.activeStreams (Flv.handle cfg s (Flv.PrePublish id path)).1)
   = size (Flv.activeStreams s) + 1).
Proof.
  destruct s as [active viewers]. simpl. split; intros H.
  - split.
    + do 2 f_equal. set_solver.
    + assert (Hsub : ({[ path ]} : gset string) ⊆ active) by set_solver.
      rewrite (size_difference _ _ Hsub). apply subseteq_size in Hsub.
      rewrite size_singleton in *. lia.
  - split.
    + do 2 f_equal. set_solver.
    + rewrite size_union by set_solver. rewrite size_singleton. lia.
Qed.

Lemma repeated_publish_and_stray_unpublish_witness :
  (Flv.handle Flv.example_cfg flv_streaming (Flv.PrePublish "c2" "/live/stream")).1
  = flv_streaming ∧
  (Flv.handle Flv.example_cfg Flv.init (Flv.DonePublish "c2" "/live/stream")).2
  = [ Log Stream "Stream ended: /live/stream";
      IoEmit "streamStatus" (Flv.streamStatus false "/live/stream") ].
Proof.
  destruct (repeated_publish_and_stray_unpublish
              Flv.example_cfg flv_streaming "c2" "/live/stream") as [H1 _].
  destruct (repeated_publish_and_stray_unpublish
              Flv.example_cfg Flv.init "c2" "/live/stream") as [_ H2].
  split.
  - destruct H1 as [-> _]; [vm_compute; set_solver | reflexivity].
  - destruct H2 as [-> _]; [vm_compute; set_solver | reflexivity].
Defined.

(** ** Ending the process *)



(** ** The viewer count that was last announced *)

Section LastCount.
Context {St Ev : Type}.
Variable handle : St → Ev → St * list Effect.
Variable clients : St → gset Socket.

Hypothesis step : ∀ s e,
  viewer_counts (handle s e).2 = [ size (clients (handle s e).1) ]
  ∨ (viewer_counts (handle s e).2 = [] ∧ clients (handle s e).1 = clients s).

Lemma last_count_run evs : ∀ s,
  size (clients (run handle s evs).1)
  = default (size (clients s)) (last (viewer_counts (run handle s evs).2)).
Proof.
  induction evs as [|e evs IH]; intros s; [done|].
  cbn [run]. pose proof (step s e) as Hstep.
  destruct (handle s e) as [s1 effs1]. cbn [fst snd] in Hstep.
  specialize (IH s1). destruct (run handle s1 evs) as [s2 effs2].
  cbn [fst snd] in *. rewrite viewer_counts_app, last_app, IH.
  destruct (last (viewer_counts effs2)); [done|].
  destruct Hstep as [-> | [-> ->]]; done.
Qed.
End LastCount.

Lemma hls_count_step cfg s e :
  viewer_counts (Hls.handle cfg s e).2 = [ size (Hls.clients (Hls.handle cfg s e).1) ]
  ∨ (viewer_counts (Hls.handle cfg s e).2 = []
     ∧ Hls.clients (Hls.handle cfg s e).1 = Hls.clients s).
Proof.
  destruct e as [ | |id streamPath| |pid data| | | |[|]]; simpl;
    try (by left); try (by right).
  - right. destruct (decide _); [|done]. unfold Hls.startFFmpeg.
    by destruct (Hls.ffmpegProc s).
  - right. by destruct (includes "frame=" data).
Qed.

Lemma flv_count_step cfg s e :
  viewer_counts (Flv.handle cfg s e).2 = [ size (Flv.clients (Flv.handle cfg s e).1) ]
  ∨ (viewer_counts (Flv.handle cfg s e).2 = []
     ∧ Flv.clients (Flv.handle cfg s e).1 = Flv.clients s).
Proof. destruct e; simpl; try (by left); by right. Qed.

(** X10: at every point of every run of either script, whatever the events and
    their order, the size of [clients] is the viewer count that was last
    broadcast (and zero if none was yet); in [logger.js] that is also the
    [viewers] field of [GET /api/info] and [GET /health]. *)
Theorem viewers_is_last_broadcast_count
    (cfgH : Hls.Config) (evsH : list Hls.Event)
    (cfgF : Flv.Config) (evsF : list Flv.Event) (uptime : float) (now : string) :
  (let '(s, effs) := run (Hls.handle cfgH) Hls.init evsH in
   size (Hls.clients s) = default 0 (last (viewer_counts effs))) ∧
  (let '(s, effs) := run (Flv.handle cfgF) Flv.init evsF in
   size (Flv.clients s) = default 0 (last (viewer_counts effs)) ∧
   field "viewers" (Flv.api_info cfgF s) = Some (JNum (default 0 (last (viewer_counts effs)))) ∧
   field "viewers" (Flv.health s uptime now)
   = Some (JNum (default 0 (last (viewer_counts effs))))).
Proof.
  pose proof (last_count_run (Hls.handle cfgH) Hls.clients (hls_count_step cfgH)
                evsH Hls.init) as HH.
  pose proof (last_count_run (Flv.handle cfgF) Flv.clients (flv_count_step cfgF)
                evsF Flv.init) as HF.
  destruct (run (Hls.handle cfgH) Hls.init evsH) as [sH effsH].
  destruct (run (Flv.handle cfgF) Flv.init evsF) as [sF effsF].
  cbn [fst snd] in *.
  change (size (Hls.clients Hls.init)) with (size (∅ : gset Socket)) in HH.
  change (size (Flv.clients Flv.init)) with (size (∅ : gset Socket)) in HF.
  rewrite size_empty in HH, HF.
  split; [done|]. split; [done|]. simpl. by rewrite HF.
Qed.

(** ** What the operator is told, what the API says, what [ffmpeg] reads *)

(** X11: the locators printed when the HTTP server starts listening are the very
    ones [GET /api/info] returns, in both scripts and for every
    configuration. *)
Theorem announced_locators_match_api_info (cfgH : Hls.Config) (cfgF : Flv.Config)
    (sF : Flv.State) :
  (∃ ingest delivery,
     field "rtmpIngest" (Hls.api_info cfgH) = Some (JStr ingest) ∧
     field "hls" (Hls.api_info cfgH) = Some (JStr delivery) ∧
     In (Log Console ("✅ RTMP Ingest: " +:+ ingest)) (hls_on_listening cfgH) ∧
     In (Log Console ("✅ HLS Stream:  " +:+ delivery)) (hls_on_listening cfgH)) ∧
  (∃ ingest delivery,
     field "rtmpIngest" (Flv.api_info cfgF sF) = Some (JStr ingest) ∧
     field "flv" (Flv.api_info cfgF sF) = Some (JStr delivery) ∧
     In (Log Success ("RTMP Ingest: " +:+ ingest)) (flv_on_listening cfgF) ∧
     In (Log Success ("FLV Stream: " +:+ delivery)) (flv_on_listening cfgF)).
Proof.
  split.
  - eexists _, _. split; [reflexivity|]. split; [reflexivity|].
    split; [right; left; reflexivity | right; right; left; reflexivity].
  - eexists _, _. split; [reflexivity|]. split; [reflexivity|].
    split; [do 4 right; left; reflexivity | do 5 right; left; reflexivity].
Qed.

(** X12: when no transcoder is tracked, a [prePublish] for ["/input/stream"]
    launches the program ["ffmpeg"], and the arguments of that very launch
    make it read from the media server on the loopback address at the same
    port and path that publishers are told to push to by [GET /api/info],
    and write an HLS playlist and its segments into one directory: the name
    [path.join] gives for ["hls"] under the script's directory. That path
    is the only one whose [prePublish] launches anything, and whatever is
    launched is ["ffmpeg"] with those arguments. *)
Theorem ffmpeg_reads_what_publishers_push (cfg : Hls.Config) (s : Hls.State) (id : string) :
  let path := "/input/stream" in
  let hls_dir := Hls.path_join cfg [ Hls.dirname cfg; "hls" ] in
  (Hls.ffmpegProc s = None →
   ∃ args,
     List.filter is_spawn (Hls.handle cfg s (Hls.PrePublish id path)).2
     = [ Spawn "ffmpeg" args (Hls.next_pid s) ] ∧
     Hls.ffmpegProc (Hls.handle cfg s (Hls.PrePublish id path)).1 = Some (Hls.next_pid s) ∧
     arg_after "-i" args = Some ("rtmp://127.0.0.1:" +:+ Hls.RTMP_PORT cfg +:+ path) ∧
     field "rtmpIngest" (Hls.api_info cfg)
     = Some (JStr ("rtmp://" +:+ Hls.SERVER_IP cfg +:+ ":" +:+ Hls.RTMP_PORT cfg +:+ path)) ∧
     arg_after "-f" args = Some "hls" ∧
     arg_after "-hls_segment_filename" args
     = Some (Hls.path_join cfg [ hls_dir; "seg_%03d.ts" ]) ∧
     last args = Some (Hls.path_join cfg [ hls_dir; "stream.m3u8" ])) ∧
  (∀ streamPath command args pid,
     In (Spawn command args pid) (Hls.handle cfg s (Hls.PrePublish id streamPath)).2 →
     streamPath = path ∧ command = "ffmpeg" ∧ args = Hls.ffmpeg_args cfg ∧
     pid = Hls.next_pid s ∧ Hls.ffmpegProc s = None).
Proof.
  intros path hls_dir. split.
  - intros Hidle. exists (Hls.ffmpeg_args cfg).
    cbn [Hls.handle]. change ("/" +:+ Hls.INPUT_APP +:+ "/" +:+ Hls.STREAM_KEY) with path.
    rewrite decide_True by done. unfold Hls.startFFmpeg. rewrite Hidle.
    split_and!; reflexivity.
  - intros streamPath command args pid. cbn [Hls.handle].
    change ("/" +:+ Hls.INPUT_APP +:+ "/" +:+ Hls.STREAM_KEY) with path.
    destruct (decide (streamPath = path)) as [->|Hne]; [|by intros [[=]|[]]].
    unfold Hls.startFFmpeg. destruct (Hls.ffmpegProc s); [by intros [[=]|[]]|].
    simpl. intros [[=]|[[= <- <- <-]|[[=]|[]]]]. done.
Qed.

Lemma ffmpeg_reads_what_publishers_push_witness :
  ∃ args,
    List.filter is_spawn
      (Hls.handle Hls.example_cfg Hls.init (Hls.PrePublish "c1" "/input/stream")).2
    = [ Spawn "ffmpeg" args 1 ] ∧
    arg_after "-i" args = Some "rtmp://127.0.0.1:1935/input/stream" ∧
    arg_after "-hls_segment_filename" args = Some "/srv/app/hls/seg_%03d.ts" ∧
    last args = Some "/srv/app/hls/stream.m3u8".
Proof.
  destruct (ffmpeg_reads_what_publishers_push Hls.example_cfg Hls.init "c1") as [H _].
  destruct (H eq_refl) as (args & H1 & _ & H3 & _ & _ & H6 & H7).
  exists args. split_and!; [exact H1 | exact H3 | exact H6 | exact H7].
Defined.

(** ** Runs of the viewer page *)

(** One turn of the loop over the consumers, flattened. *)
Lemma attach_cons settles w audio c rest :
  Client.attach settles w audio (c :: rest)
  = if settles (Client.Consumed c) then
      match Client.transport_consume w c with
      | inl err => ([ Client.TransportConsume c ], Client.Throws err)
      | inr _ =>
          match media settles w audio c with
          | (tr1, None) => (Client.TransportConsume c :: tr1, Client.Waits)
          | (tr1, Some audio') =>
              let '(tr2, r) := Client.attach settles w audio' rest in
              (Client.TransportConsume c :: tr1
                 ++ Client.SocketOn ("consumer-resume-" +:+ Client.c_id c) :: tr2, r)
          end
      end
    else ([ Client.TransportConsume c ], Client.Waits).
Proof.
  cbn [Client.attach]. unfold media, playing, warn_if_rejected, Client.try_play,
    Client.try_catch, Client.when, Client.act, Client.await.
  destruct (settles (Client.Consumed c)); [|done].
  destruct (Client.transport_consume w c) as [err|[]]; [done|].
  destruct (decide (Client.kind c = "video")); [|destruct (decide (Client.kind c = "audio"))].
  - destruct (settles (Client.Played "video")); [|done].
    destruct (Client.play w "video") as [?|[]]; cbn -[Client.attach];
      by destruct (Client.attach settles w audio rest).
  - destruct (settles (Client.Played "remote-audio")); [|by destruct audio].
    destruct audio, (Client.play w "remote-audio") as [?|[]]; cbn -[Client.attach];
      by destruct (Client.attach settles w true rest).
  - cbn -[Client.attach]. by destruct (Client.attach settles w audio rest).
Qed.

Lemma timers_app tr1 tr2 : timers (tr1 ++ tr2) = timers tr1 + timers tr2.
Proof. unfold timers. by rewrite List.filter_app, length_app. Qed.

Lemma created_app tr1 tr2 :
  audio_elements_created (tr1 ++ tr2)
  = audio_elements_created tr1 + audio_elements_created tr2.
Proof. unfold audio_elements_created. by rewrite List.filter_app, length_app. Qed.

Lemma media_measures settles w audio c :
  timers (media settles w audio c).1 = 0 ∧
  emitted (media settles w audio c).1 = [] ∧
  listeners (media settles w audio c).1 = [] ∧
  consumed (media settles w audio c).1 = [] ∧
  reported (media settles w audio c).1 = [] ∧
  audio_elements_created (media settles w audio c).1 ≤ (if audio then 0 else 1) ∧
  (∀ audio', (media settles w audio c).2 = Some audio' →
     audio_elements_created (media settles w audio c).1 + (if audio' then 0 else 1)
     ≤ (if audio then 0 else 1)) ∧
  ((media settles w audio c).2 = None → ∃ call, settles call = false) ∧
  ((∀ call, settles call = true) → is_Some (media settles w audio c).2).
Proof.
  unfold media, playing, warn_if_rejected.
  destruct (decide _);
    [ destruct (settles (Client.Played "video")) eqn:E;
      [ destruct (Client.play w "video") as [?|[]] | ]
    | destruct (decide _);
      [ destruct (settles (Client.Played "remote-audio")) eqn:E;
        [ destruct (Client.play w "remote-audio") as [?|[]] | ] | ] ];
    destruct audio; cbn; split_and!; try done; try lia;
    try (intros ? [= <-]; lia); try (by intros _; eauto);
    try (intros H; rewrite H in E; done).
Qed.

Lemma attach_measures settles w cs : ∀ audio,
  timers (Client.attach settles w audio cs).1 = 0 ∧
  emitted (Client.attach settles w audio cs).1 = [] ∧
  reported (Client.attach settles w audio cs).1 = [] ∧
  audio_elements_created (Client.attach settles w audio cs).1 ≤ (if audio then 0 else 1) ∧
  consumed (Client.attach settles w audio cs).1 `prefix_of` cs ∧
  ((Client.attach settles w audio cs).2 = Client.Returns tt →
   consumed (Client.attach settles w audio cs).1 = cs ∧
   listeners (Client.attach settles w audio cs).1 = map resume_event cs) ∧
  ((∀ call, settles call = true) →
   (∀ c, c ∈ cs → Client.transport_consume w c = inr tt) →
   (Client.attach settles w audio cs).2 = Client.Returns tt) ∧
  ((Client.attach settles w audio cs).2 = Client.Waits → ∃ call, settles call = false).
Proof.
  induction cs as [|c cs IH]; intros audio.
  - cbn. split_and!; try done. destruct audio; lia.
  - rewrite attach_cons.
    destruct (settles (Client.Consumed c)) eqn:Es.
    2:{ cbn. split_and!; try done.
        - destruct audio; lia.
        - by apply prefix_cons, prefix_nil.
        - intros H. by rewrite H in Es.
        - eauto. }
    destruct (Client.transport_consume w c) as [err|[]] eqn:Ec.
    + cbn. split_and!; try done.
      * destruct audio; lia.
      * by apply prefix_cons, prefix_nil.
      * intros _ H. specialize (H c ltac:(left)). congruence.
    + pose proof (media_measures settles w audio c)
        as (M1 & M2 & M3 & M4 & M7 & M5 & M6 & M8 & M9).
      destruct (media settles w audio c) as [tr1 [audio'|]]; cbn [fst snd] in *.
      * specialize (IH audio') as (I1 & I2 & I7 & I3 & I4 & I5 & I6 & I8).
        destruct (Client.attach settles w audio' cs) as [tr2 r]. cbn [fst snd] in *.
        set (e := "consumer-resume-" +:+ Client.c_id c).
        assert (Hl : Client.TransportConsume c :: tr1 ++ Client.SocketOn e :: tr2
                     = [ Client.TransportConsume c ] ++ tr1 ++ [ Client.SocketOn e ] ++ tr2)
          by done.
        rewrite Hl. clear Hl.
        unfold consumed, listeners, emitted, reported in *.
        rewrite !timers_app, !created_app, !omap_app, M1, M2, M3, M4, M7, I1, I2, I7.
        specialize (M6 audio' eq_refl).
        split_and!; try done.
        -- cbn. destruct audio, audio'; lia.
        -- cbn. by apply prefix_cons.
        -- intros ->. destruct (I5 eq_refl) as [-> ->]. done.
        -- intros Hs H. apply I6; [done|]. intros c' Hc'. apply H. by right.
      * assert (Hl : Client.TransportConsume c :: tr1 = [ Client.TransportConsume c ] ++ tr1)
          by done.
        rewrite Hl. clear Hl.
        unfold consumed, listeners, emitted, reported in *.
        rewrite !timers_app, !created_app, !omap_app, M1, M2, M4, M7.
        split_and!; try done;
          try (cbn; destruct audio; lia);
          try (cbn; by apply prefix_cons, prefix_nil);
          try (intros Hs _; by destruct (M9 Hs) as [? [=]]);
          try (intros _; by apply M8).
Qed.

(** The [try] block of [init], flattened: where it stops and what it has
    done by then. *)
Lemma negotiate_flat settles w :
  Client.negotiate settles w
  = if settles Client.FetchInfo then
    match Client.fetch_info w with
    | inl e => ([ Client.Fetch "/api/info" ], Client.Throws e)
    | inr info =>
    if settles (Client.Ack "getRouterRtpCapabilities") then
    match Client.ack_getRouterRtpCapabilities w with
    | None => (greeting w info, Client.Throws "No rtpCapabilities")
    | Some rc =>
    if settles Client.DeviceLoaded then
    match Client.device_load w rc with
    | inl e => (greeting w info ++ [ Client.DeviceLoad rc ], Client.Throws e)
    | inr dc =>
    if settles (Client.Ack "createTransport") then
    match Client.ack_createTransport w with
    | None => (greeting w info ++ [ Client.DeviceLoad rc; Client.Emit "createTransport" None ],
               Client.Throws "createTransport failed")
    | Some t =>
    if settles (Client.Ack "consume") then
    match Client.ack_consume w with
    | None => (handshake w info rc dc t, Client.Throws "consume failed")
    | Some resp =>
    match Client.consumers resp with
    | None | Some [] =>
        (handshake w info rc dc t
           ++ [ Client.ConsoleWarn "No consumers available yet. Retrying in 1s...";
                Client.SetTimeout Client.Init 1000 ], Client.Returns tt)
    | Some cs =>
        match Client.attach settles w (Client.has_remote_audio w) cs with
        | (tr, Client.Throws e) => (handshake w info rc dc t ++ tr, Client.Throws e)
        | (tr, Client.Returns _) =>
            (handshake w info rc dc t ++ tr ++ [ Client.SocketOn "stream-status" ],
             Client.Returns tt)
        | (tr, Client.Waits) => (handshake w info rc dc t ++ tr, Client.Waits)
        end
    end end
    else (handshake w info rc dc t, Client.Waits)
    end
    else (greeting w info ++ [ Client.DeviceLoad rc; Client.Emit "createTransport" None ],
          Client.Waits)
    end
    else (greeting w info ++ [ Client.DeviceLoad rc ], Client.Waits)
    end
    else (greeting w info, Client.Waits)
    end
    else ([ Client.Fetch "/api/info" ], Client.Waits).
Proof.
  unfold Client.negotiate, Client.request, Client.await, Client.when, handshake, greeting.
  destruct (settles Client.FetchInfo); [|reflexivity].
  destruct (Client.fetch_info w) as [e|info]; [reflexivity|].
  destruct (settles (Client.Ack "getRouterRtpCapabilities")).
  2:{ by destruct (Client.has_ipEl w), (Client.has_macEl w). }
  destruct (Client.ack_getRouterRtpCapabilities w) as [rc|].
  2:{ by destruct (Client.has_ipEl w), (Client.has_macEl w). }
  cbn -[Client.attach].
  destruct (settles Client.DeviceLoaded).
  2:{ by destruct (Client.has_ipEl w), (Client.has_macEl w). }
  destruct (Client.device_load w rc) as [e|dc].
  { by destruct (Client.has_ipEl w), (Client.has_macEl w). }
  destruct (settles (Client.Ack "createTransport")).
  2:{ by destruct (Client.has_ipEl w), (Client.has_macEl w). }
  destruct (Client.ack_createTransport w) as [t|].
  2:{ by destruct (Client.has_ipEl w), (Client.has_macEl w). }
  destruct (settles (Client.Ack "consume")).
  2:{ by destruct (Client.has_ipEl w), (Client.has_macEl w). }
  destruct (Client.ack_consume w) as [[[[|c cs]|]]|].
  1,3,4: by destruct (Client.has_ipEl w), (Client.has_macEl w).
  cbn -[Client.attach].
  destruct (Client.attach settles w (Client.has_remote_audio w) (c :: cs)) as [tr [e|[]|]].
  all: destruct (Client.has_ipEl w), (Client.has_macEl w); cbn; rewrite <- ?app_assoc; reflexivity.
Qed.

Lemma greeting_measures w info :
  timers (greeting w info) = 0 ∧
  emitted (greeting w info) = [ "getRouterRtpCapabilities" ] ∧
  consumed (greeting w info) = [] ∧
  listeners (greeting w info) = [] ∧
  reported (greeting w info) = [] ∧
  audio_elements_created (greeting w info) = 0 ∧
  (∀ event, event ≠ "getRouterRtpCapabilities" →
     listening_when_sent event (greeting w info) = None ∧
     ∀ rest, listening_when_sent event (greeting w info ++ rest)
             = listening_when_sent event rest).
Proof.
  unfold greeting. destruct (Client.has_ipEl w), (Client.has_macEl w);
    split_and!; try done; intros event Hne;
    (split; [|intros rest]); cbn -[String.eqb];
    by destruct (String.eqb_spec "getRouterRtpCapabilities" event).
Qed.

Ltac init_cases settles w :=
  unfold Client.init_when; rewrite (negotiate_flat settles w); unfold handshake;
  destruct (settles Client.FetchInfo) eqn:?S;
  [ destruct (Client.fetch_info w) as [?e|?info];
    [ | pose proof (greeting_measures w info) as (G1 & G2 & G3 & G4 & G6 & G5 & G7);
        destruct (settles (Client.Ack "getRouterRtpCapabilities")) eqn:?S;
        [ destruct (Client.ack_getRouterRtpCapabilities w) as [?rc|];
          [ destruct (settles Client.DeviceLoaded) eqn:?S;
            [ destruct (Client.device_load w rc) as [?e|?dc];
              [ | destruct (settles (Client.Ack "createTransport")) eqn:?S;
                  [ destruct (Client.ack_createTransport w) as [?t|];
                    [ destruct (settles (Client.Ack "consume")) eqn:?S;
                      [ destruct (Client.ack_consume w) as [[[[|?c ?cs]|]]|] | ]
                    | ]
                  | ] ]
            | ]
          | ]
        | ] ]
  | ];
  cbn [Client.consumers].

Ltac with_attach settles w :=
  match goal with
  | |- context [Client.attach settles w ?a ?l] =>
      pose proof (attach_measures settles w l a) as (A1 & A2 & A7 & A3 & A4 & A5 & A6 & A8);
      destruct (Client.attach settles w a l) as [?tr [?e|[]|]];
      cbn [fst snd] in A1, A2, A3, A4, A5, A6, A7, A8
  end.

Ltac measure :=
  unfold consumed, emitted, listeners, reported in *;
  repeat rewrite ?timers_app, ?created_app, ?last_app, ?omap_app.

Ltac stalled :=
  match goal with
  | H : ?settles ?call = false |- ∃ call, ?settles call = false => by exists call
  | H : _ → ∃ call, ?settles call = false |- ∃ call, ?settles call = false => by apply H
  end.

Lemma reported_app tr1 tr2 : reported (tr1 ++ tr2) = reported tr1 ++ reported tr2.
Proof. apply omap_app. Qed.

Lemma consumed_app tr1 tr2 : consumed (tr1 ++ tr2) = consumed tr1 ++ consumed tr2.
Proof. apply omap_app. Qed.

Lemma emitted_app tr1 tr2 : emitted (tr1 ++ tr2) = emitted tr1 ++ emitted tr2.
Proof. apply omap_app. Qed.

(** What the [catch] clause adds to the [try] block. *)
Lemma init_when_catch settles w :
  Client.init_when settles w
  = match Client.negotiate settles w with
    | (tr, Client.Throws _) =>
        tr ++ [ Client.ConsoleError "init error"; Client.SetTimeout Client.Init 1500 ]
    | (tr, _) => tr
    end.
Proof.
  unfold Client.init_when. by destruct (Client.negotiate settles w) as [tr [?|[]|]].
Qed.

Lemma negotiate_ends settles w :
  let '(tr, r) := Client.negotiate settles w in
  reported tr = [] ∧
  match r with
  | Client.Throws _ => timers tr = 0
  | Client.Returns _ =>
      (last tr = Some (Client.SetTimeout Client.Init 1000) ∧ timers tr = 1 ∧ consumed tr = [])
      ∨ (last tr = Some (Client.SocketOn "stream-status") ∧ timers tr = 0)
  | Client.Waits => timers tr = 0 ∧ ∃ call, settles call = false
  end.
Proof.
  init_cases settles w; try with_attach settles w;
    rewrite ?timers_app, ?reported_app, ?consumed_app, ?last_app;
    rewrite ?A1, ?A7, ?G1, ?G3, ?G6; cbn;
    (split; [reflexivity|]);
    first [ reflexivity
          | split; [reflexivity|]; stalled
          | left; split; [reflexivity|]; split; reflexivity
          | right; split; reflexivity ].
Qed.

(** X13: how a run of [init] ends, whatever the outcome of each awaited
    call. If a step rejects (the fetch, a request whose acknowledgement
    is empty, the device, [recvTransport.consume]), it reports
    ["init error"] and schedules [init] again after 1500 ms. If [consume]
    is answered with no consumer, it creates none, reports no error and
    schedules [init] again after 1000 ms. If every step succeeds it ends
    by listening to ["stream-status"] and sets no timer. In these cases
    the timer, if any, is the last action and the only one. And if an
    awaited call never settles (an acknowledgement that never comes, a
    [play()] that stays pending), the run never gets past it: it sets no
    timer and reports nothing, so nothing is ever retried. A run waits
    only if some awaited call never settles. *)
Theorem init_schedules_at_most_one_retry
    (settles : Client.Awaited → bool) (w : Client.World) :
  let trace := Client.init_when settles w in
  timers trace ≤ 1 ∧
  match (Client.negotiate settles w).2 with
  | Client.Throws err =>
      last trace = Some (Client.SetTimeout Client.Init 1500) ∧
      timers trace = 1 ∧ reported trace = [ "init error" ]
  | Client.Returns _ =>
      reported trace = [] ∧
      ((last trace = Some (Client.SetTimeout Client.Init 1000) ∧
        timers trace = 1 ∧ consumed trace = [])
       ∨ (last trace = Some (Client.SocketOn "stream-status") ∧ timers trace = 0))
  | Client.Waits =>
      timers trace = 0 ∧ reported trace = [] ∧
      trace = (Client.negotiate settles w).1 ∧
      ∃ call, settles call = false
  end.
Proof.
  intros trace. subst trace. rewrite init_when_catch.
  pose proof (negotiate_ends settles w) as H.
  destruct (Client.negotiate settles w) as [tr [err|[]|]]; cbn [fst snd];
    destruct H as [Hr H].
  - rewrite timers_app, reported_app, last_app, Hr, H. cbn. split_and!; [lia|done..].
  - split; [destruct H as [(_ & -> & _)|(_ & ->)]; lia|]. split; [done|].
    destruct H as [(? & ? & ?)|(? & ?)]; [left|right]; done.
  - destruct H as [-> H]. split_and!; [lia|done..].
Qed.

(** A server that never acknowledges [consume]: the page sends the request
    and does nothing more, ever. *)
Example unanswered_consume_is_never_retried :
  last (Client.init_when consume_unanswered busy_world)
  = Some (Client.Emit "consume" (Some [ "video/H264"; "audio/opus" ])) ∧
  timers (Client.init_when consume_unanswered busy_world) = 0 ∧
  reported (Client.init_when consume_unanswered busy_world) = [].
Proof. vm_compute. split_and!; reflexivity. Qed.

Lemma created_bound settles w :
  audio_elements_created (Client.init_when settles w)
  ≤ (if Client.has_remote_audio w then 0 else 1).
Proof.
  init_cases settles w; try with_attach settles w;
    cbn [Client.try_catch Client.act mbind Client.Run_bind fst snd];
    measure; rewrite ?G5; cbn; destruct (Client.has_remote_audio w); lia.
Qed.

(** X14: one run of [init] adds the hidden [#remote-audio] element to the
    document at most once, however many audio consumers it attaches, and
    never when the document already has one. *)
Theorem audio_element_created_at_most_once (w : Client.World) :
  audio_elements_created (Client.init w) ≤ (if Client.has_remote_audio w then 0 else 1).
Proof. apply created_bound. Qed.

Lemma listening_when_sent_catch event msg callback ms tr :
  listening_when_sent event
    (tr ++ [ Client.ConsoleError msg; Client.SetTimeout callback ms ])
  = listening_when_sent event tr.
Proof.
  induction tr as [|a tr IH]; [done|].
  destruct a; cbn -[String.eqb]; rewrite ?IH; done.
Qed.

Lemma negotiate_requests (settles : Client.Awaited → bool) (w : Client.World) :
  let '(tr, _) := Client.negotiate settles w in
  emitted tr `prefix_of` [ "getRouterRtpCapabilities"; "createTransport"; "consume" ] ∧
  (consumed tr = []
   ∨ emitted tr = [ "getRouterRtpCapabilities"; "createTransport"; "consume" ]) ∧
  ((emitted tr = [ "getRouterRtpCapabilities"; "createTransport"; "consume" ]
    ∧ listening_when_sent "consume" tr = Some [ "connect" ])
   ∨ (length (emitted tr) < 3 ∧ listening_when_sent "consume" tr = None)).
Proof.
  assert (Hother : "consume" ≠ "getRouterRtpCapabilities") by done.
  init_cases settles w; try with_attach settles w;
    try (destruct (G7 "consume" Hother) as [G8 G9]);
    rewrite <- ?app_assoc; rewrite ?G9, ?G8;
    rewrite ?emitted_app, ?consumed_app; rewrite ?A2, ?G2, ?G3; cbn;
    (split; [ repeat (apply prefix_cons); apply prefix_nil | ]);
    (split; [ first [ left; reflexivity | right; reflexivity ] | ]);
    first [ left; split; reflexivity | right; split; [lia | reflexivity] ].
Qed.

Lemma init_requests (settles : Client.Awaited → bool) (w : Client.World) :
  emitted (Client.init_when settles w)
    `prefix_of` [ "getRouterRtpCapabilities"; "createTransport"; "consume" ] ∧
  (consumed (Client.init_when settles w) = []
   ∨ emitted (Client.init_when settles w)
     = [ "getRouterRtpCapabilities"; "createTransport"; "consume" ]) ∧
  ((emitted (Client.init_when settles w)
    = [ "getRouterRtpCapabilities"; "createTransport"; "consume" ]
    ∧ listening_when_sent "consume" (Client.init_when settles w) = Some [ "connect" ])
   ∨ (length (emitted (Client.init_when settles w)) < 3
      ∧ listening_when_sent "consume" (Client.init_when settles w) = None)).
Proof.
  rewrite init_when_catch. pose proof (negotiate_requests settles w) as H.
  destruct (Client.negotiate settles w) as [tr [err|[]|]]; try exact H.
  rewrite emitted_app, consumed_app, listening_when_sent_catch. cbn.
  by rewrite !app_nil_r.
Qed.

(** X15: the requests the body of [init] sends over the socket are an
    initial part of [getRouterRtpCapabilities], [createTransport],
    [consume], in that order, each at most once, whatever the outcomes of
    the awaited calls; and the page creates a consumer only after it has
    sent all three. The fourth request of the protocol, [connectTransport],
    is not sent by the body: it is sent by the listener for the
    transport's [connect] event, which is the one transport listener
    registered by the time [consume] is sent. That listener sends
    [connectTransport] with the parameters it is handed, then calls
    [callback] exactly when the acknowledgement comes with a true [ok],
    calls [errback] with ["connectTransport fail"] on every other
    acknowledgement, and calls neither while none has come. *)
Theorem requests_follow_protocol_order
    (settles : Client.Awaited → bool) (w : Client.World)
    (dtlsParameters : string) (reply : option (option bool)) :
  let trace := Client.init_when settles w in
  let connect := Client.on_connect dtlsParameters reply in
  let protocol := [ "getRouterRtpCapabilities"; "createTransport"; "consume" ] in
  emitted trace `prefix_of` protocol ∧
  (consumed trace = [] ∨ emitted trace = protocol) ∧
  ((emitted trace = protocol ∧ listening_when_sent "consume" trace = Some [ "connect" ])
   ∨ (length (emitted trace) < 3 ∧ listening_when_sent "consume" trace = None)) ∧
  head connect = Some (Client.EmitConnectTransport dtlsParameters) ∧
  emitted connect = [ "connectTransport" ] ∧
  (In Client.TransportCallback connect ↔ reply = Some (Some true)) ∧
  (∀ msg, In (Client.TransportErrback msg) connect
          ↔ msg = "connectTransport fail" ∧ is_Some reply ∧ reply ≠ Some (Some true)) ∧
  (reply = None → connect = [ Client.EmitConnectTransport dtlsParameters ]).
Proof.
  intros trace connect protocol. subst trace connect protocol.
  destruct (init_requests settles w) as (H1 & H2 & H3).
  split; [exact H1|]. split; [exact H2|]. split; [exact H3|].
  split; [reflexivity|]. split; [by destruct reply as [[[|]|]|]|]. split; [|split].
  - split.
    + intros H. destruct reply as [[[|]|]|]; cbn in H;
        repeat (destruct H as [H|H]; try done).
    + intros ->. cbn. auto.
  - intros msg. split.
    + intros H. destruct reply as [[[|]|]|]; cbn in H;
        repeat (destruct H as [H|H]; try done); injection H as <-;
        split_and!; eauto; done.
    + intros (-> & [r ->] & Hne). destruct r as [[|]|]; cbn; [done | auto | auto].
  - by intros ->.
Qed.

(** X16: when the handshake succeeds, [consume] is answered with a list of
    consumers and [recvTransport.consume] succeeds for each of them, [init]
    creates exactly these consumers in the order received, registers one
    resume listener for each and then the ["stream-status"] listener, sets
    no timer and reports no error, whether or not the browser lets the
    media elements play. *)
Theorem consumers_attached_whatever_playback_does
    (w : Client.World) (info : Client.Info) (rc dc : list string)
    (t : Client.TransportInfo) (cs : list Client.ConsumerDesc) :
  Client.fetch_info w = inr info →
  Client.ack_getRouterRtpCapabilities w = Some rc →
  Client.device_load w rc = inr dc →
  Client.ack_createTransport w = Some t →
  Client.ack_consume w = Some {| Client.consumers := Some cs |} →
  cs ≠ [] →
  (∀ c, c ∈ cs → Client.transport_consume w c = inr tt) →
  consumed (Client.init w) = cs ∧
  listeners (Client.init w) = map resume_event cs ++ [ "stream-status" ] ∧
  timers (Client.init w) = 0 ∧
  reported (Client.init w) = [] ∧
  last (Client.init w) = Some (Client.SocketOn "stream-status").
Proof.
  intros Hf Hr Hd Ht Hc Hne Hall.
  unfold Client.init, Client.init_when. rewrite (negotiate_flat _ w), Hf, Hr, Hd, Ht, Hc.
  cbn [Client.consumers]. destruct cs as [|c cs]; [done|].
  pose proof (attach_measures (λ _, true) w (c :: cs) (Client.has_remote_audio w))
    as (A1 & A2 & A7 & A3 & A4 & A5 & A6 & A8).
  specialize (A6 (λ _, eq_refl) Hall). destruct (A5 A6) as [A51 A52].
  destruct (Client.attach (λ _, true) w (Client.has_remote_audio w) (c :: cs)) as [tr r].
  cbn [fst snd] in *. subst r.
  pose proof (greeting_measures w info) as (G1 & G2 & G3 & G4 & G6 & G5 & G7).
  cbn [Client.try_catch fst]. unfold handshake.
  measure. rewrite A1, A7, A51, A52, G1, G3, G4, G6. cbn.
  rewrite !app_nil_r. done.
Qed.

Lemma consumers_attached_whatever_playback_does_witness :
  timers (Client.init busy_world) = 0 ∧
  listeners (Client.init busy_world)
  = [ "consumer-resume-consumer-p1"; "consumer-resume-consumer-p2";
      "consumer-resume-consumer-p3"; "stream-status" ].
Proof.
  destruct (consumers_attached_whatever_playback_does busy_world
              {| Client.ip := None; Client.mac := None |}
              [ "video/H264"; "audio/opus" ] [ "video/H264"; "audio/opus" ]
              {| Client.t_id := "t1"; Client.iceParameters := "ice";
                 Client.iceCandidates := "cand"; Client.dtlsParameters := "dtls" |}
              (map Negotiation.consumer_for
                 [ {| Negotiation.p_id := "p1"; Negotiation.p_kind := "video";
                      Negotiation.p_codec := "video/H264" |};
                   {| Negotiation.p_id := "p2"; Negotiation.p_kind := "audio";
                      Negotiation.p_codec := "audio/opus" |};
                   {| Negotiation.p_id := "p3"; Negotiation.p_kind := "audio";
                      Negotiation.p_codec := "audio/opus" |} ])
              eq_refl eq_refl eq_refl eq_refl eq_refl
              ltac:(discriminate) ltac:(intros; reflexivity))
    as (_ & H2 & H3 & _).
  split; [exact H3 | exact H2].
Defined.
